(** * Audio mixer of mediastreamer2: audiomixer2.c (scalar) and
    audiomixer_avx2.c (vectorized).

    Shallow embedding of the two mixer filters.  The channel table, which the
    C code keeps as a fixed array of [MIXER_MAX_CHANNELS] structs, is a total
    map from pin index to channel; the filter's input and output queue arrays
    are total maps from pin index to [option queue] ([None] is an unconnected
    pin).  C [int] values are [Z]; [uint64_t] subtraction is reduced modulo
    2^64 and the [(uint64_t) -1] sentinel is [U64_MAX].  Buffers of raw PCM
    are lists of bytes (each a [Z] in [0, 255]); sample vectors are lists of
    16-bit values.  Message blocks carry the identity of their data block, so
    that [dupb]/[dupmsg] (which share the data block) can be told apart from
    [allocb] (which creates a new one). *)

From Stdlib Require Import ZArith List Lia Bool.
Import ListNotations.
Open Scope Z_scope.

(* ------------------------------------------------------------------ *)
(** ** C integer helpers *)

Definition MIXER_MAX_CHANNELS : nat := 128.
Definition BYPASS_MODE_TIMEOUT : Z := 1000.

(** [(short) x]: two's complement truncation to 16 bits. *)
Definition to_short (x : Z) : Z := (x + 32768) mod 65536 - 32768.

(** [uint64_t] arithmetic. *)
Definition u64 (x : Z) : Z := x mod 2 ^ 64.
Definition U64_MAX : Z := 2 ^ 64 - 1.

(** Little-endian decoding of a byte buffer into 16-bit samples
    ([(short * ) buffer]) and the converse. *)
Fixpoint decode16 (bs : list Z) : list Z :=
  match bs with
  | lo :: hi :: rest => to_short (lo + 256 * hi) :: decode16 rest
  | _ => []
  end.

Fixpoint encode16 (xs : list Z) : list Z :=
  match xs with
  | [] => []
  | x :: rest => x mod 256 :: (x / 256) mod 256 :: encode16 rest
  end.

(** Pointwise update of a fixed-size table. *)
Definition upd {A} (t : nat -> A) (i : nat) (v : A) : nat -> A :=
  fun j => if Nat.eqb j i then v else t j.

(* ------------------------------------------------------------------ *)
(** ** Saturation *)

(** audiomixer2.c, [saturate_sample]. *)
Definition saturate_sample (s : Z) : Z :=
  to_short (if s >? 32767 then 32767 else if s <? -32767 then -32767 else s).

(** audiomixer_avx2.c, [saturate]. *)
Definition saturate (s : Z) : Z :=
  if s >? 32767 then 32767 else if s <? -32767 then -32767 else to_short s.

(* ------------------------------------------------------------------ *)
(** ** Message blocks and queues *)

Record mblk := mk_mblk { db : nat; payload : list Z }.
Definition queue := list mblk.

(** [dupb] / [dupmsg]: a new message header on the same data block. *)
Definition dupb (m : mblk) : mblk := mk_mblk (db m) (payload m).
Definition dupmsg (m : mblk) : mblk := mk_mblk (db m) (payload m).

Definition ms_queue_empty (q : queue) : bool :=
  match q with [] => true | _ => false end.

(** The filter as seen by [process]: its pins, its ticker, and the
    allocator of data blocks (the next fresh data block identity). *)
Record Filter := mk_filter {
  inputs : nat -> option queue;
  outputs : nat -> option queue;
  ticker_time : Z;
  ticker_interval : Z;
  next_db : nat
}.

Definition set_inputs (f : Filter) (i : nat -> option queue) : Filter :=
  mk_filter i (outputs f) (ticker_time f) (ticker_interval f) (next_db f).
Definition set_outputs (f : Filter) (o : nat -> option queue) : Filter :=
  mk_filter (inputs f) o (ticker_time f) (ticker_interval f) (next_db f).
Definition set_next_db (f : Filter) (n : nat) : Filter :=
  mk_filter (inputs f) (outputs f) (ticker_time f) (ticker_interval f) n.

(** [allocb] of a block filled with [data]. *)
Definition allocb (f : Filter) (data : list Z) : mblk * Filter :=
  (mk_mblk (next_db f) data, set_next_db f (S (next_db f))).

(** [ms_queue_put] on output pin [i]. *)
Definition put_output (f : Filter) (i : nat) (m : mblk) : Filter :=
  match outputs f i with
  | Some q => set_outputs f (upd (outputs f) i (Some (q ++ [m])))
  | None => f
  end.

(* ------------------------------------------------------------------ *)
(** ** MSBufferizer *)

(** Modelled from the spec: [ms_bufferizer_put_from_queue] (msqueue.c of
    mediastreamer2, not part of the sources here) appends the raw bytes of
    every queued frame to the elastic buffer and empties the queue. *)
Definition ms_bufferizer_put_from_queue (b : list Z) (q : queue) : list Z :=
  b ++ concat (map payload q).

(** Modelled from the spec: [ms_bufferizer_read] returns exactly [n] bytes
    (and reports [n]) when that many are buffered; otherwise it reports 0 and
    consumes nothing ("insufficient data is no contribution this tick"). *)
Definition ms_bufferizer_read (b : list Z) (n : Z) : Z * list Z * list Z :=
  if Z.of_nat (length b) >=? n
  then (n, firstn (Z.to_nat n) b, skipn (Z.to_nat n) b)
  else (0, [], b).

(** Modelled from the spec: [ms_bufferizer_get_avail] is the buffered byte
    count. *)
Definition ms_bufferizer_get_avail (b : list Z) : Z := Z.of_nat (length b).

(** Modelled from the spec: [ms_bufferizer_skip_bytes] trims [n] bytes off
    the front of the buffer. *)
Definition ms_bufferizer_skip_bytes (b : list Z) (n : Z) : list Z :=
  skipn (Z.to_nat n) b.

(* ------------------------------------------------------------------ *)
(** ** Channels *)

(** [struct Channel]; [had_input] exists in audiomixer2.c only, the
    vectorized variant never reads or writes it. *)
Record Channel := mk_chan {
  bufferizer : list Z;
  input : list Z;
  min_fullness : Z;
  last_flow_control : Z;
  last_activity : Z;
  active : bool;
  output_enabled : bool;
  had_input : bool
}.

Definition set_bufferizer c b := mk_chan b (input c) (min_fullness c)
  (last_flow_control c) (last_activity c) (active c) (output_enabled c) (had_input c).
Definition set_input c i := mk_chan (bufferizer c) i (min_fullness c)
  (last_flow_control c) (last_activity c) (active c) (output_enabled c) (had_input c).
Definition set_flow c m l := mk_chan (bufferizer c) (input c) m
  l (last_activity c) (active c) (output_enabled c) (had_input c).
Definition set_last_activity c t := mk_chan (bufferizer c) (input c) (min_fullness c)
  (last_flow_control c) t (active c) (output_enabled c) (had_input c).
Definition set_active c a := mk_chan (bufferizer c) (input c) (min_fullness c)
  (last_flow_control c) (last_activity c) a (output_enabled c) (had_input c).
Definition set_output_enabled c e := mk_chan (bufferizer c) (input c) (min_fullness c)
  (last_flow_control c) (last_activity c) (active c) e (had_input c).
Definition set_had_input c h := mk_chan (bufferizer c) (input c) (min_fullness c)
  (last_flow_control c) (last_activity c) (active c) (output_enabled c) h.

(** [channel_init]: [ms_new0] zeroes the struct, then the flags are set. *)
Definition channel_init : Channel := mk_chan [] [] 0 0 0 true true false.

(** [channel_prepare]: the contribution buffer comes from [posix_memalign]
    and holds whatever the allocator hands out, [junk]. *)
Definition channel_prepare (junk : list Z) (c : Channel) : Channel :=
  mk_chan (bufferizer c) junk (min_fullness c) U64_MAX U64_MAX
    (active c) (output_enabled c) (had_input c).

(** [channel_flow_control] (identical in both files): returns [skip] and the
    updated channel. *)
Definition channel_flow_control (chan : Channel) (threshold time : Z) : Z * Channel :=
  if last_flow_control chan =? U64_MAX then
    (0, set_flow chan (-1) time)
  else
    let size := ms_bufferizer_get_avail (bufferizer chan) in
    let minf := if (min_fullness chan =? -1) || (size <? min_fullness chan)
                then size else min_fullness chan in
    if u64 (time - last_flow_control chan) >=? 5000 then
      if minf >=? threshold then
        let skip := minf - Z.quot threshold 2 in
        (skip, set_flow (set_bufferizer chan
                           (ms_bufferizer_skip_bytes (bufferizer chan) skip)) (-1) time)
      else (0, set_flow chan (-1) time)
    else (0, set_flow chan minf (last_flow_control chan)).

(* ------------------------------------------------------------------ *)
(** ** Bypass detector (identical in both files) *)

(** One iteration of the input loop of [mixer_check_bypass] on a connected
    pin with queue [q]: whether the pin counts as active, and the channel
    with its [last_activity] stamp. *)
Definition bypass_pin (curtime : Z) (q : queue) (chan : Channel) : bool * Channel :=
  if negb (ms_queue_empty q) then (true, set_last_activity chan curtime)
  else if last_activity chan =? U64_MAX then (false, set_last_activity chan curtime)
  else if u64 (curtime - last_activity chan) <? BYPASS_MODE_TIMEOUT then (true, chan)
  else (false, chan).

(** The accumulator of the loop: channels, [active_cnt], [active_input]
    ([activeq] is always [f->inputs[active_input]]). *)
Definition bypass_scan_step (f : Filter)
    (acc : (nat -> Channel) * Z * Z) (i : nat) : (nat -> Channel) * Z * Z :=
  let '(chans, cnt, ai) := acc in
  match inputs f i with
  | None => acc
  | Some q =>
      let (act, c') := bypass_pin (ticker_time f) q (chans i) in
      if act then (upd chans i c', cnt + 1, Z.of_nat i)
      else (upd chans i c', cnt, ai)
  end.

Definition bypass_scan (f : Filter) (chans : nat -> Channel) : (nat -> Channel) * Z * Z :=
  fold_left (bypass_scan_step f) (seq 0 MIXER_MAX_CHANNELS) (chans, 0, -1).

(** The output loop of [mixer_dispatch_output]; returns what is left of the
    input queue and the output queues.  With [single_output] the frames are
    moved to the first eligible output and the loop breaks. *)
Fixpoint dispatch_loop (idx : list nat) (single : bool) (conf : Z)
    (chans : nat -> Channel) (ai : Z) (inq : queue) (outs : nat -> option queue)
    : queue * (nat -> option queue) :=
  match idx with
  | [] => (inq, outs)
  | i :: rest =>
      match outs i with
      | Some outq =>
          if output_enabled (chans i) && (negb (ai =? Z.of_nat i) || (conf =? 0)) then
            if single then ([], upd outs i (Some (outq ++ inq)))
            else dispatch_loop rest single conf chans ai inq
                   (upd outs i (Some (outq ++ map dupmsg inq)))
          else dispatch_loop rest single conf chans ai inq outs
      | None => dispatch_loop rest single conf chans ai inq outs
      end
  end.

Definition queue_of (o : option queue) : queue :=
  match o with Some q => q | None => [] end.

(** [mixer_dispatch_output]: the input queue is flushed at the end. *)
Definition mixer_dispatch_output (f : Filter) (single : bool) (conf : Z)
    (chans : nat -> Channel) (ai : Z) : Filter :=
  let inq := queue_of (inputs f (Z.to_nat ai)) in
  let outs := snd (dispatch_loop (seq 0 MIXER_MAX_CHANNELS) single conf chans ai inq
                     (outputs f)) in
  set_inputs (set_outputs f outs) (upd (inputs f) (Z.to_nat ai) (Some [])).

(** [mixer_check_bypass] over the fields of the mixer state it reads and
    writes: returns the verdict, the channels, the new [bypass_mode] and the
    filter. *)
Definition mixer_check_bypass (f : Filter) (chans : nat -> Channel)
    (bypass_mode single : bool) (conf : Z)
    : bool * (nat -> Channel) * bool * Filter :=
  let '(chans', active_cnt, active_input) := bypass_scan f chans in
  if active_cnt =? 1 then
    (true, chans', true, mixer_dispatch_output f single conf chans' active_input)
  else if active_cnt >? 1 then (false, chans', false, f)
  else (true, chans', bypass_mode, f).

(** [has_single_output]. *)
Definition has_single_output (f : Filter) (chans : nat -> Channel) : bool :=
  Nat.eqb (length (filter (fun i => match outputs f i with
                                    | Some _ => output_enabled (chans i)
                                    | None => false end)
                     (seq 0 MIXER_MAX_CHANNELS))) 1.

(* ------------------------------------------------------------------ *)
(** ** Sample loops shared by the strategies *)

(** [accumulate]: [sum[k] += input[k]] for [k < n]. *)
Definition accumulate (sum input : list Z) (n : nat) : list Z :=
  map (fun k => if (k <? n)%nat then nth k sum 0 + nth k input 0 else nth k sum 0)
    (seq 0 (length sum)).

(** Control methods answer 0 on success and -1 on failure. *)
Definition MS_OK : Z := 0.
Definition MS_ERR : Z := -1.

(* ------------------------------------------------------------------ *)
(** ** The scalar strategy: audiomixer2.c *)

Module Scalar.

Record MixerState := mk_mixer {
  nchannels : Z;
  rate : Z;
  samplespertick : Z;
  channels : nat -> Channel;
  conf_mode : Z;
  sum : list Z;
  skip_threshold : Z;
  bypass_mode : bool;
  single_output : bool
}.

Definition set_rate_field s r := mk_mixer (nchannels s) r (samplespertick s)
  (channels s) (conf_mode s) (sum s) (skip_threshold s) (bypass_mode s) (single_output s).
Definition set_nchannels_field s n := mk_mixer n (rate s) (samplespertick s)
  (channels s) (conf_mode s) (sum s) (skip_threshold s) (bypass_mode s) (single_output s).
Definition set_channels s c := mk_mixer (nchannels s) (rate s) (samplespertick s)
  c (conf_mode s) (sum s) (skip_threshold s) (bypass_mode s) (single_output s).
Definition set_conf_mode_field s m := mk_mixer (nchannels s) (rate s) (samplespertick s)
  (channels s) m (sum s) (skip_threshold s) (bypass_mode s) (single_output s).
Definition set_sum s v := mk_mixer (nchannels s) (rate s) (samplespertick s)
  (channels s) (conf_mode s) v (skip_threshold s) (bypass_mode s) (single_output s).
Definition set_bypass_mode s b := mk_mixer (nchannels s) (rate s) (samplespertick s)
  (channels s) (conf_mode s) (sum s) (skip_threshold s) b (single_output s).
Definition set_single_output s b := mk_mixer (nchannels s) (rate s) (samplespertick s)
  (channels s) (conf_mode s) (sum s) (skip_threshold s) (bypass_mode s) b.

(** [subtract_and_copy_to_out]: [out[k] = saturate_sample(sum[k] - input[k])]. *)
Definition subtract_and_copy_to_out (sum input : list Z) (n : nat) : list Z :=
  map (fun k => saturate_sample (nth k sum 0 - nth k input 0)) (seq 0 n).

(** [copy_to_out]: [out[k] = saturate_sample(sum[k])]. *)
Definition copy_to_out (sum : list Z) (n : nat) : list Z :=
  map (fun k => saturate_sample (nth k sum 0)) (seq 0 n).

(** [mixer_init]. *)
Definition mixer_init : MixerState :=
  mk_mixer 1 16000 0 (fun _ => channel_init) 0 [] 0 false false.

(** [mixer_preprocess]; [junk i] is the fresh contribution buffer of channel
    [i]; the accumulator is cleared before every use. *)
Definition mixer_preprocess (junk : nat -> list Z) (s : MixerState) (f : Filter)
    : MixerState :=
  let spt := Z.quot (nchannels s * rate s * ticker_interval f) 1000 in
  let chans := fun i => channel_prepare (junk i) (channels s i) in
  mk_mixer (nchannels s) (rate s) spt chans (conf_mode s)
    (repeat 0 (Z.to_nat spt)) (spt * 4) false (has_single_output f chans).

(** Reading one tick block of a connected channel (lines 275-283), before
    its flow control. *)
Definition channel_drain (spt : Z) (chan : Channel) (q : queue) : Channel :=
  let chan := set_had_input chan false in
  let b := ms_bufferizer_put_from_queue (bufferizer chan) q in
  let '(n, data, b') := ms_bufferizer_read b (spt * 2) in
  if negb (n =? 0) then
    let chan := set_input (set_bufferizer chan b') (decode16 data) in
    if active chan then set_had_input chan true else chan
  else set_bufferizer chan b'.

(** One iteration of the summing loop (lines 271-286). *)
Definition mix_in_step (spt thr time : Z)
    (acc : (nat -> Channel) * list Z * (nat -> option queue)) (i : nat)
    : (nat -> Channel) * list Z * (nat -> option queue) :=
  let '(chans, sum, ins) := acc in
  match ins i with
  | None => acc
  | Some q =>
      let c1 := channel_drain spt (chans i) q in
      let sum' := if had_input c1 then accumulate sum (input c1) (Z.to_nat spt) else sum in
      let c2 := snd (channel_flow_control c1 thr time) in
      (upd chans i c2, sum', upd ins i (Some []))
  end.

(** The output loop (lines 288-309); [cached] is [om_cached]. *)
Fixpoint mix_out_loop (idx : list nat) (n : nat) (conf : Z) (chans : nat -> Channel)
    (sum : list Z) (cached : option mblk) (f : Filter) : Filter :=
  match idx with
  | [] => f
  | i :: rest =>
      match outputs f i with
      | None => mix_out_loop rest n conf chans sum cached f
      | Some _ =>
          let chan := chans i in
          if output_enabled chan then
            if active chan && had_input chan && negb (conf =? 0) then
              let '(om, f1) := allocb f (encode16 (subtract_and_copy_to_out sum (input chan) n)) in
              mix_out_loop rest n conf chans sum cached (put_output f1 i om)
            else
              match cached with
              | None =>
                  let '(om, f1) := allocb f (encode16 (copy_to_out sum n)) in
                  mix_out_loop rest n conf chans sum (Some om) (put_output f1 i om)
              | Some c =>
                  mix_out_loop rest n conf chans sum cached (put_output f i (dupb c))
              end
          else mix_out_loop rest n conf chans sum cached f
      end
  end.

(** The summation path of [mixer_process], after the bypass check. *)
Definition mix_in (s : MixerState) (chans : nat -> Channel) (f : Filter)
    : (nat -> Channel) * list Z * (nat -> option queue) :=
  let spt := samplespertick s in
  fold_left (mix_in_step spt (skip_threshold s) (ticker_time f)) (seq 0 MIXER_MAX_CHANNELS)
    (chans, repeat 0 (Z.to_nat spt), inputs f).

(** [mixer_process]. *)
Definition mixer_process (s : MixerState) (f : Filter) : MixerState * Filter :=
  let '(bypassed, chans, bm, f1) :=
      mixer_check_bypass f (channels s) (bypass_mode s) (single_output s) (conf_mode s) in
  let s1 := set_bypass_mode (set_channels s chans) bm in
  if bypassed then (s1, f1)
  else
    let '(chans2, sum2, ins2) := mix_in s1 chans f1 in
    let f2 := set_inputs f1 ins2 in
    let f3 := mix_out_loop (seq 0 MIXER_MAX_CHANNELS) (Z.to_nat (samplespertick s))
                (conf_mode s) chans2 sum2 None f2 in
    (set_sum (set_channels s1 chans2) sum2, f3).

(** Control methods. *)
Definition mixer_set_rate (rate : Z) (s : MixerState) : Z * MixerState :=
  if Z.rem rate 8000 =? 0 then (MS_OK, set_rate_field s rate) else (MS_ERR, s).

Definition mixer_get_rate (s : MixerState) : Z := rate s.

Definition mixer_set_nchannels (n : Z) (s : MixerState) : Z * MixerState :=
  (MS_OK, set_nchannels_field s n).

Definition mixer_set_input_gain (gain : Z) (s : MixerState) : Z * MixerState :=
  (MS_ERR, s).

Definition mixer_set_active (pin : Z) (act : bool) (s : MixerState) : Z * MixerState :=
  if (pin <? 0) || (pin >=? Z.of_nat MIXER_MAX_CHANNELS) then (MS_ERR, s)
  else let p := Z.to_nat pin in
       (MS_OK, set_channels s (upd (channels s) p (set_active (channels s p) act))).

Definition mixer_enable_output (f : Filter) (pin : Z) (en : bool) (s : MixerState)
    : Z * MixerState :=
  if (pin <? 0) || (pin >=? Z.of_nat MIXER_MAX_CHANNELS) then (MS_ERR, s)
  else let p := Z.to_nat pin in
       let chans := upd (channels s) p (set_output_enabled (channels s p) en) in
       (MS_OK, set_single_output (set_channels s chans) (has_single_output f chans)).

Definition mixer_set_conference_mode (m : Z) (s : MixerState) : Z * MixerState :=
  (MS_OK, set_conf_mode_field s m).

(** [mixer_postprocess]: the accumulator and every contribution buffer
    are freed ([channel_unprepare]) and their pointers set to NULL, an empty
    list here; nothing else of the state changes. *)
Definition mixer_postprocess (s : MixerState) : MixerState :=
  mk_mixer (nchannels s) (rate s) (samplespertick s)
    (fun i => set_input (channels s i) []) (conf_mode s) [] (skip_threshold s)
    (bypass_mode s) (single_output s).

(** The ticker calling [mixer_process] once per tick; between ticks the
    rest of the graph fills the input queues and empties the output queues,
    so every tick is given the filter as it finds it. *)
Definition run (s : MixerState) (fs : list Filter) : MixerState :=
  fold_left (fun s f => fst (mixer_process s f)) fs s.

End Scalar.

(* ------------------------------------------------------------------ *)
(** ** The vectorized strategy: audiomixer_avx2.c *)

Module Avx2.

Definition VLENGTH : Z := 8.

Record MixerState := mk_mixer {
  nchannels : Z;
  rate : Z;
  bytespertick : Z;
  channels : nat -> Channel;
  sum : list Z;
  conf_mode : Z;
  skip_threshold : Z;
  bypass_mode : bool;
  single_output : bool
}.

Definition set_rate_field s r := mk_mixer (nchannels s) r (bytespertick s)
  (channels s) (sum s) (conf_mode s) (skip_threshold s) (bypass_mode s) (single_output s).
Definition set_nchannels_field s n := mk_mixer n (rate s) (bytespertick s)
  (channels s) (sum s) (conf_mode s) (skip_threshold s) (bypass_mode s) (single_output s).
Definition set_channels s c := mk_mixer (nchannels s) (rate s) (bytespertick s)
  c (sum s) (conf_mode s) (skip_threshold s) (bypass_mode s) (single_output s).
Definition set_conf_mode_field s m := mk_mixer (nchannels s) (rate s) (bytespertick s)
  (channels s) (sum s) m (skip_threshold s) (bypass_mode s) (single_output s).
Definition set_sum s v := mk_mixer (nchannels s) (rate s) (bytespertick s)
  (channels s) v (conf_mode s) (skip_threshold s) (bypass_mode s) (single_output s).
Definition set_bypass_mode s b := mk_mixer (nchannels s) (rate s) (bytespertick s)
  (channels s) (sum s) (conf_mode s) (skip_threshold s) b (single_output s).
Definition set_single_output s b := mk_mixer (nchannels s) (rate s) (bytespertick s)
  (channels s) (sum s) (conf_mode s) (skip_threshold s) (bypass_mode s) b.

(** Number of samples covered by the [nsamples/VLENGTH] vectors of a loop. *)
Definition lanes (nsamples : Z) : nat := Z.to_nat (Z.quot nsamples VLENGTH * VLENGTH).

(** [mixer_init]. *)
Definition mixer_init : MixerState :=
  mk_mixer 1 16000 0 (fun _ => channel_init) [] 0 0 false false.

(** [mixer_preprocess]; [junk i] is the fresh contribution buffer of channel
    [i] ([posix_memalign] does not clear it). *)
Definition mixer_preprocess (junk : nat -> list Z) (s : MixerState) (f : Filter)
    : MixerState :=
  let bpt := Z.quot (2 * nchannels s * rate s * ticker_interval f) 1000 in
  let chans := fun i => channel_prepare (junk i) (channels s i) in
  mk_mixer (nchannels s) (rate s) bpt chans (repeat 0 (Z.to_nat (Z.quot bpt 2)))
    (conf_mode s) (bpt * 2) false (has_single_output f chans).

(** [channel_process_in]: returns the channel and the accumulator. *)
Definition channel_process_in (chan : Channel) (q : queue) (sum : list Z) (nsamples : Z)
    : Channel * list Z :=
  let b := ms_bufferizer_put_from_queue (bufferizer chan) q in
  let '(n, data, b') := ms_bufferizer_read b (nsamples * 2) in
  let chan := set_bufferizer chan b' in
  if negb (n =? 0) then
    let chan := set_input chan (decode16 data) in
    if active chan then (chan, accumulate sum (input chan) (lanes nsamples))
    else (chan, sum)
  else (set_input chan (repeat 0 (Z.to_nat nsamples)), sum).

(** [channel_process_out]: the payload of the allocated frame. *)
Definition channel_process_out (chan : Channel) (sum : list Z) (nsamples : Z) : list Z :=
  if active chan then
    map (fun k => saturate (nth k sum 0 - nth k (input chan) 0)) (seq 0 (lanes nsamples))
  else map (fun k => saturate (nth k sum 0)) (seq 0 (lanes nsamples)).

(** [make_output]: the payload of the generic frame. *)
Definition make_output (sum : list Z) (nwords : Z) : list Z :=
  map (fun k => saturate (nth k sum 0)) (seq 0 (lanes nwords)).

(** One iteration of the summing loop (lines 309-315). *)
Definition mix_in_step (nwords thr time : Z)
    (acc : (nat -> Channel) * list Z * (nat -> option queue)) (i : nat)
    : (nat -> Channel) * list Z * (nat -> option queue) :=
  let '(chans, sum, ins) := acc in
  match ins i with
  | None => acc
  | Some q =>
      let '(c1, sum') := channel_process_in (chans i) q sum nwords in
      let c2 := snd (channel_flow_control c1 thr time) in
      (upd chans i c2, sum', upd ins i (Some []))
  end.

(** Output loop without conference mode (lines 318-331): one generic frame,
    duplicated for every further output. *)
Fixpoint out_loop_generic (idx : list nat) (nwords : Z) (chans : nat -> Channel)
    (sum : list Z) (om : option mblk) (f : Filter) : Filter :=
  match idx with
  | [] => f
  | i :: rest =>
      match outputs f i with
      | Some _ =>
          if output_enabled (chans i) then
            match om with
            | None =>
                let '(m, f1) := allocb f (encode16 (make_output sum nwords)) in
                out_loop_generic rest nwords chans sum (Some m) (put_output f1 i m)
            | Some m0 =>
                let m := dupb m0 in
                out_loop_generic rest nwords chans sum (Some m) (put_output f i m)
            end
          else out_loop_generic rest nwords chans sum om f
      | None => out_loop_generic rest nwords chans sum om f
      end
  end.

(** Output loop in conference mode (lines 334-340). *)
Fixpoint out_loop_conf (idx : list nat) (nwords : Z) (chans : nat -> Channel)
    (sum : list Z) (f : Filter) : Filter :=
  match idx with
  | [] => f
  | i :: rest =>
      match outputs f i with
      | Some _ =>
          if output_enabled (chans i) then
            let '(m, f1) := allocb f (encode16 (channel_process_out (chans i) sum nwords)) in
            out_loop_conf rest nwords chans sum (put_output f1 i m)
          else out_loop_conf rest nwords chans sum f
      | None => out_loop_conf rest nwords chans sum f
      end
  end.

Definition mix_in (s : MixerState) (chans : nat -> Channel) (f : Filter)
    : (nat -> Channel) * list Z * (nat -> option queue) :=
  let nwords := Z.quot (bytespertick s) 2 in
  fold_left (mix_in_step nwords (skip_threshold s) (ticker_time f)) (seq 0 MIXER_MAX_CHANNELS)
    (chans, repeat 0 (Z.to_nat nwords), inputs f).

(** [mixer_process]. *)
Definition mixer_process (s : MixerState) (f : Filter) : MixerState * Filter :=
  let nwords := Z.quot (bytespertick s) 2 in
  let '(bypassed, chans, bm, f1) :=
      mixer_check_bypass f (channels s) (bypass_mode s) (single_output s) (conf_mode s) in
  let s1 := set_bypass_mode (set_channels s chans) bm in
  if bypassed then (s1, f1)
  else
    let '(chans2, sum2, ins2) := mix_in s1 chans f1 in
    let f2 := set_inputs f1 ins2 in
    let f3 := if conf_mode s =? 0
              then out_loop_generic (seq 0 MIXER_MAX_CHANNELS) nwords chans2 sum2 None f2
              else out_loop_conf (seq 0 MIXER_MAX_CHANNELS) nwords chans2 sum2 f2 in
    (set_sum (set_channels s1 chans2) sum2, f3).

(** Control methods. *)
Definition mixer_set_rate (rate : Z) (s : MixerState) : Z * MixerState :=
  if (rate =? 8000) || (rate =? 16000) then (MS_OK, set_rate_field s rate) else (MS_ERR, s).

Definition mixer_get_rate (s : MixerState) : Z := rate s.

Definition mixer_set_nchannels (n : Z) (s : MixerState) : Z * MixerState :=
  (MS_OK, set_nchannels_field s n).

Definition mixer_set_input_gain (gain : Z) (s : MixerState) : Z * MixerState :=
  (MS_ERR, s).

Definition mixer_set_active (pin : Z) (act : bool) (s : MixerState) : Z * MixerState :=
  if (pin <? 0) || (pin >=? Z.of_nat MIXER_MAX_CHANNELS) then (MS_ERR, s)
  else let p := Z.to_nat pin in
       (MS_OK, set_channels s (upd (channels s) p (set_active (channels s p) act))).

Definition mixer_enable_output (f : Filter) (pin : Z) (en : bool) (s : MixerState)
    : Z * MixerState :=
  if (pin <? 0) || (pin >=? Z.of_nat MIXER_MAX_CHANNELS) then (MS_ERR, s)
  else let p := Z.to_nat pin in
       let chans := upd (channels s) p (set_output_enabled (channels s p) en) in
       (MS_OK, set_single_output (set_channels s chans) (has_single_output f chans)).

Definition mixer_set_conference_mode (m : Z) (s : MixerState) : Z * MixerState :=
  (MS_OK, set_conf_mode_field s m).

(** The ticker calling [mixer_process] once per tick; between ticks the
    rest of the graph fills the input queues and empties the output queues,
    so every tick is given the filter as it finds it. *)
Definition run (s : MixerState) (fs : list Filter) : MixerState :=
  fold_left (fun s f => fst (mixer_process s f)) fs s.

End Avx2.

(* ================================================================== *)
(** * Concrete set-ups *)

(** Connected pins given as an association list. *)
Fixpoint pins_of (l : list (nat * queue)) (i : nat) : option queue :=
  match l with
  | [] => None
  | (j, q) :: rest => if Nat.eqb j i then Some q else pins_of rest i
  end.

(** At 8000 Hz, one channel and the usual 10 ms tick, a tick holds 80
    samples; [tick_frame d xs] is one tick of PCM whose first samples are
    [xs], on data block [d]. *)
Definition pad_tick (xs : list Z) : list Z := xs ++ repeat 0 (80 - length xs).

Definition tick_frame (d : nat) (xs : list Z) : mblk := mk_mblk d (encode16 (pad_tick xs)).

(** The samples of every frame of an output queue. *)
Definition output_samples (o : option queue) : option (list (list Z)) :=
  option_map (map (fun m => decode16 (payload m))) o.

(** Three talkers A, B, C on pins 0, 1, 2 (one frame each), outputs on pins
    0 to 3; pin 3 is a listener with no input. *)
Definition three_talkers : Filter :=
  mk_filter (pins_of [(0%nat, [tick_frame 100 [100; -50]]); (1%nat, [tick_frame 101 [200; 30]]);
                      (2%nat, [tick_frame 102 [-10; 5]])])
            (pins_of [(0%nat, []); (1%nat, []); (2%nat, []); (3%nat, [])]) 0 10 0.

(** Four talkers on pins 0 to 3 (pin 3 sends [7, 7, ...]), outputs on
    pins 0 to 4. *)
Definition four_talkers : Filter :=
  mk_filter (pins_of [(0%nat, [tick_frame 100 [100; -50]]); (1%nat, [tick_frame 101 [200; 30]]);
                      (2%nat, [tick_frame 102 [-10; 5]]); (3%nat, [tick_frame 103 [7; 7]])])
            (pins_of [(0%nat, []); (1%nat, []); (2%nat, []); (3%nat, []); (4%nat, [])]) 0 10 0.

(** The graph relinked: pins 0 to 2 talk, the inputs of pins 3 and 4 are
    not connected, and outputs 0 to 4 are; pins 3 and 4 are listeners. *)
Definition relinked_talkers : Filter :=
  mk_filter (pins_of [(0%nat, [tick_frame 110 [100; -50]]); (1%nat, [tick_frame 111 [200; 30]]);
                      (2%nat, [tick_frame 112 [-10; 5]])])
            (pins_of [(0%nat, []); (1%nat, []); (2%nat, []); (3%nat, []); (4%nat, [])]) 0 10 0.

(** A scalar mixer set to 8000 Hz and conference mode, then prepared for
    [f]; [junk] is what [posix_memalign] returns for the contribution
    buffers. *)
Definition scalar_conference (junk : list Z) (f : Filter) : Scalar.MixerState :=
  Scalar.mixer_preprocess (fun _ => junk)
    (snd (Scalar.mixer_set_conference_mode 1 (snd (Scalar.mixer_set_rate 8000 Scalar.mixer_init)))) f.

Definition avx2_conference (junk : list Z) (f : Filter) : Avx2.MixerState :=
  Avx2.mixer_preprocess (fun _ => junk)
    (snd (Avx2.mixer_set_conference_mode 1 (snd (Avx2.mixer_set_rate 8000 Avx2.mixer_init)))) f.

(** A mixer set to 8000 Hz with conference mode off, then prepared for [f]. *)
Definition scalar_plain (junk : list Z) (f : Filter) : Scalar.MixerState :=
  Scalar.mixer_preprocess (fun _ => junk) (snd (Scalar.mixer_set_rate 8000 Scalar.mixer_init)) f.

Definition avx2_plain (junk : list Z) (f : Filter) : Avx2.MixerState :=
  Avx2.mixer_preprocess (fun _ => junk) (snd (Avx2.mixer_set_rate 8000 Avx2.mixer_init)) f.

(* ================================================================== *)
(** * Relations between states *)

(** What a tick leaves in an input queue it reads: every frame is taken. *)
Definition drained (o : option queue) : option queue :=
  match o with Some _ => Some [] | None => None end.

(** An output queue after a tick: the frames already there, followed by
    new ones; a pin that is not connected stays unconnected. *)
Definition out_grows (o o' : option queue) : Prop :=
  match o with None => o' = None | Some q => exists l, o' = Some (q ++ l) end.

(** A step that leaves the input queues alone and only appends to the
    output queues. *)
Definition io_ok (g g' : Filter) : Prop :=
  inputs g' = inputs g /\ forall j, out_grows (outputs g j) (outputs g' j).

(** The fields of a mixer that only the control methods change: the
    per-channel switches and the configuration. *)
Definition scalar_keeps (s0 s : Scalar.MixerState) : Prop :=
  (forall j, active (Scalar.channels s j) = active (Scalar.channels s0 j) /\
             output_enabled (Scalar.channels s j) = output_enabled (Scalar.channels s0 j)) /\
  Scalar.nchannels s = Scalar.nchannels s0 /\ Scalar.rate s = Scalar.rate s0 /\
  Scalar.samplespertick s = Scalar.samplespertick s0 /\
  Scalar.conf_mode s = Scalar.conf_mode s0 /\
  Scalar.skip_threshold s = Scalar.skip_threshold s0 /\
  Scalar.single_output s = Scalar.single_output s0.

Definition avx2_keeps (a0 a : Avx2.MixerState) : Prop :=
  (forall j, active (Avx2.channels a j) = active (Avx2.channels a0 j) /\
             output_enabled (Avx2.channels a j) = output_enabled (Avx2.channels a0 j)) /\
  Avx2.nchannels a = Avx2.nchannels a0 /\ Avx2.rate a = Avx2.rate a0 /\
  Avx2.bytespertick a = Avx2.bytespertick a0 /\
  Avx2.conf_mode a = Avx2.conf_mode a0 /\
  Avx2.skip_threshold a = Avx2.skip_threshold a0 /\
  Avx2.single_output a = Avx2.single_output a0.

(** A scalar channel and a vectorized channel in the same condition: the
    fields both strategies read ([had_input] and the contribution buffer
    are not compared). *)
Definition chan_corr (c1 c2 : Channel) : Prop :=
  bufferizer c1 = bufferizer c2 /\ min_fullness c1 = min_fullness c2 /\
  last_flow_control c1 = last_flow_control c2 /\ last_activity c1 = last_activity c2 /\
  active c1 = active c2 /\ output_enabled c1 = output_enabled c2.

(** A scalar and a vectorized mixer in corresponding states: the same
    configuration, tick size ([bytespertick = 2 * samplespertick], a whole
    number of 8-sample vectors) and channels. *)
Definition mixer_corr (s : Scalar.MixerState) (a : Avx2.MixerState) : Prop :=
  Scalar.nchannels s = Avx2.nchannels a /\ Scalar.rate s = Avx2.rate a /\
  Avx2.bytespertick a = 2 * Scalar.samplespertick s /\
  Z.rem (Scalar.samplespertick s) 8 = 0 /\
  (forall j, chan_corr (Scalar.channels s j) (Avx2.channels a j)) /\
  Scalar.conf_mode s = Avx2.conf_mode a /\
  Scalar.skip_threshold s = Avx2.skip_threshold a /\
  Scalar.bypass_mode s = Avx2.bypass_mode a /\
  Scalar.single_output s = Avx2.single_output a.

(* ================================================================== *)
(** * Properties *)

(** ** Helper lemmas *)

Lemma to_short_small (x : Z) : -32768 <= x <= 32767 -> to_short x = x.
Proof.
  intros H. unfold to_short. rewrite Z.mod_small by lia. lia.
Qed.

Lemma upd_eq {A} (t : nat -> A) i v : upd t i v i = v.
Proof. unfold upd. now rewrite Nat.eqb_refl. Qed.

Lemma upd_neq {A} (t : nat -> A) i j v : j <> i -> upd t i v j = t j.
Proof. intros H. unfold upd. apply Nat.eqb_neq in H. now rewrite H. Qed.

(** ** C7: saturation *)

(** C7: [saturate_sample] (audiomixer2.c) clamps every [int] to
    [-32767, 32767], never yields -32768, and is idempotent; the vectorized
    [saturate] computes the same function. *)
Theorem saturate_sample_clamp_idempotent (x : Z) :
  -32767 <= saturate_sample x <= 32767 /\
  saturate_sample x <> -32768 /\
  saturate_sample (saturate_sample x) = saturate_sample x /\
  saturate x = saturate_sample x.
Proof.
  assert (Hr : -32767 <= saturate_sample x <= 32767).
  { unfold saturate_sample.
    destruct (x >? 32767) eqn:E1; [rewrite to_short_small; lia|].
    destruct (x <? -32767) eqn:E2; [rewrite to_short_small; lia|].
    rewrite Z.gtb_ltb, Z.ltb_ge in E1. rewrite Z.ltb_ge in E2.
    rewrite to_short_small; lia. }
  split; [exact Hr|]. split; [lia|]. split.
  - unfold saturate_sample at 1.
    replace (saturate_sample x >? 32767) with false
      by (symmetry; rewrite Z.gtb_ltb, Z.ltb_ge; lia).
    replace (saturate_sample x <? -32767) with false
      by (symmetry; rewrite Z.ltb_ge; lia).
    apply to_short_small; lia.
  - unfold saturate, saturate_sample.
    destruct (x >? 32767) eqn:E1; [rewrite to_short_small; lia|].
    destruct (x <? -32767) eqn:E2; [rewrite to_short_small; lia|].
    reflexivity.
Qed.

(** ** C8: sample rate *)

(** C8: [mixer_set_rate] of audiomixer2.c succeeds exactly for multiples of
    8000 (C's [%] is [Z.rem]) and that of audiomixer_avx2.c exactly for 8000
    and 16000; a rejected rate answers -1 and leaves the state as it was, an
    accepted one is what [mixer_get_rate] reads back.  In particular 11025 is
    rejected and 16000 accepted by both. *)
Theorem set_rate_validation (r : Z) (s : Scalar.MixerState) (a : Avx2.MixerState) :
  (fst (Scalar.mixer_set_rate r s) = MS_OK <-> Z.rem r 8000 = 0) /\
  (Z.rem r 8000 = 0 -> Scalar.mixer_get_rate (snd (Scalar.mixer_set_rate r s)) = r) /\
  (Z.rem r 8000 <> 0 -> Scalar.mixer_set_rate r s = (MS_ERR, s)) /\
  (fst (Avx2.mixer_set_rate r a) = MS_OK <-> r = 8000 \/ r = 16000) /\
  (r = 8000 \/ r = 16000 -> Avx2.mixer_get_rate (snd (Avx2.mixer_set_rate r a)) = r) /\
  (r <> 8000 /\ r <> 16000 -> Avx2.mixer_set_rate r a = (MS_ERR, a)) /\
  Scalar.mixer_set_rate 11025 s = (MS_ERR, s) /\
  Avx2.mixer_set_rate 11025 a = (MS_ERR, a) /\
  Scalar.mixer_get_rate (snd (Scalar.mixer_set_rate 16000 s)) = 16000 /\
  fst (Scalar.mixer_set_rate 16000 s) = MS_OK /\
  Avx2.mixer_get_rate (snd (Avx2.mixer_set_rate 16000 a)) = 16000 /\
  fst (Avx2.mixer_set_rate 16000 a) = MS_OK.
Proof.
  unfold Scalar.mixer_set_rate, Avx2.mixer_set_rate, Scalar.mixer_get_rate,
    Avx2.mixer_get_rate, MS_OK, MS_ERR.
  repeat split; intros.
  - destruct (Z.rem r 8000 =? 0) eqn:E; simpl in *; [lia | discriminate].
  - rewrite H, Z.eqb_refl. reflexivity.
  - rewrite H. reflexivity.
  - apply Z.eqb_neq in H. now rewrite H.
  - destruct (r =? 8000) eqn:E1, (r =? 16000) eqn:E2; simpl in *; lia.
  - destruct H as [-> | ->]; reflexivity.
  - destruct H as [-> | ->]; reflexivity.
  - destruct H as [H1 H2]. apply Z.eqb_neq in H1, H2. now rewrite H1, H2.
Qed.

(** ** C9: pin validation and the gain control *)

(** C9: [mixer_set_active] and [mixer_enable_output] answer -1 and leave the
    mixer state as it was for every pin outside [0, 128), in both strategies,
    and [mixer_set_input_gain] answers -1 and leaves it as it was for every
    argument. *)
Theorem invalid_pin_and_gain_no_effect (pin : Z) (b : bool) (g : Z) (f : Filter)
    (s : Scalar.MixerState) (a : Avx2.MixerState) :
  (pin < 0 \/ pin >= Z.of_nat MIXER_MAX_CHANNELS ->
     Scalar.mixer_set_active pin b s = (MS_ERR, s) /\
     Scalar.mixer_enable_output f pin b s = (MS_ERR, s) /\
     Avx2.mixer_set_active pin b a = (MS_ERR, a) /\
     Avx2.mixer_enable_output f pin b a = (MS_ERR, a)) /\
  Scalar.mixer_set_input_gain g s = (MS_ERR, s) /\
  Avx2.mixer_set_input_gain g a = (MS_ERR, a).
Proof.
  split; [|split; reflexivity].
  intros H.
  assert (E : (pin <? 0) || (pin >=? Z.of_nat MIXER_MAX_CHANNELS) = true).
  { destruct H; [rewrite (proj2 (Z.ltb_lt _ _)) by lia; reflexivity|].
    rewrite orb_true_iff. right. rewrite Z.geb_le. lia. }
  unfold Scalar.mixer_set_active, Scalar.mixer_enable_output,
    Avx2.mixer_set_active, Avx2.mixer_enable_output.
  rewrite E. repeat split.
Qed.

(** ** C5: flow control *)

(** C5: [channel_flow_control].  The first call after [channel_prepare]
    (sentinel [(uint64_t) -1]) only seeds the window start and returns 0.
    Every later call folds the current fullness into the running minimum
    ([-1] meaning "none yet").  When at least 5000 time units have elapsed
    since the window start, a minimum of at least [threshold] trims exactly
    [minimum - threshold/2] bytes off the front of the buffer, and in every
    case the window restarts at [time] with the minimum reset to [-1]. *)
Theorem flow_control_window (chan : Channel) (threshold time : Z)
    (Hthr : 0 <= threshold) :
  let '(skip, c') := channel_flow_control chan threshold time in
  let size := Z.of_nat (length (bufferizer chan)) in
  let minf := if min_fullness chan =? -1 then size else Z.min size (min_fullness chan) in
  (last_flow_control chan = U64_MAX ->
     skip = 0 /\ bufferizer c' = bufferizer chan /\
     last_flow_control c' = time /\ min_fullness c' = -1) /\
  (last_flow_control chan <> U64_MAX ->
     (u64 (time - last_flow_control chan) < 5000 ->
        skip = 0 /\ bufferizer c' = bufferizer chan /\
        min_fullness c' = minf /\ last_flow_control c' = last_flow_control chan) /\
     (u64 (time - last_flow_control chan) >= 5000 ->
        last_flow_control c' = time /\ min_fullness c' = -1 /\
        (minf >= threshold ->
           skip = minf - Z.quot threshold 2 /\
           bufferizer c' = skipn (Z.to_nat skip) (bufferizer chan) /\
           Z.of_nat (length (bufferizer c')) = size - skip) /\
        (minf < threshold -> skip = 0 /\ bufferizer c' = bufferizer chan))).
Proof.
  unfold channel_flow_control, ms_bufferizer_get_avail, ms_bufferizer_skip_bytes.
  set (size := Z.of_nat (length (bufferizer chan))).
  assert (Hsz : 0 <= size) by lia.
  set (m := if (min_fullness chan =? -1) || (size <? min_fullness chan)
            then size else min_fullness chan).
  assert (Hm : m = (if min_fullness chan =? -1 then size else Z.min size (min_fullness chan))).
  { subst m. destruct (min_fullness chan =? -1); [reflexivity|].
    simpl. destruct (size <? min_fullness chan) eqn:E.
    - apply Z.ltb_lt in E. lia.
    - apply Z.ltb_ge in E. lia. }
  assert (Hmle : m <= size).
  { rewrite Hm. destruct (min_fullness chan =? -1); lia. }
  rewrite <- Hm.
  destruct (last_flow_control chan =? U64_MAX) eqn:EL.
  - apply Z.eqb_eq in EL. split; [intros _; repeat split|intros H; contradiction].
  - apply Z.eqb_neq in EL.
    destruct (u64 (time - last_flow_control chan) >=? 5000) eqn:ET;
      [destruct (m >=? threshold) eqn:EM|]; cbv beta iota;
      (split; [intros H; contradiction|intros _]).
    + apply Z.geb_le in ET. apply Z.geb_le in EM. split; [intros; lia|intros _].
      split; [reflexivity|]. split; [reflexivity|].
      split; [intros _|intros; lia].
      assert (Hq : 0 <= Z.quot threshold 2 <= threshold).
      { split; [apply Z.quot_pos; lia|].
        apply Z.quot_le_upper_bound; lia. }
      split; [reflexivity|]. split; [reflexivity|].
      simpl. rewrite length_skipn. subst size. lia.
    + apply Z.geb_le in ET. rewrite Z.geb_leb, Z.leb_gt in EM.
      split; [intros; lia|intros _].
      split; [reflexivity|]. split; [reflexivity|].
      split; [intros; lia|intros _; split; reflexivity].
    + assert (ET' : u64 (time - last_flow_control chan) < 5000).
      { rewrite Z.geb_leb, Z.leb_gt in ET. lia. }
      split; [intros _; repeat split|intros; lia].
Qed.

(** C5, on a channel whose window started at 0 and whose buffer holds 100
    bytes with a running minimum of 80: at time 5000 with threshold 64, the
    window closes and 80 - 32 = 48 bytes are trimmed, leaving 52. *)
Lemma flow_control_window_witness :
  let chan := mk_chan (repeat 0 100) [] 80 0 0 true true false in
  let '(skip, c') := channel_flow_control chan 64 5000 in
  skip = 48 /\ Z.of_nat (length (bufferizer c')) = 52.
Proof.
  pose proof (flow_control_window (mk_chan (repeat 0 100) [] 80 0 0 true true false) 64 5000
                ltac:(lia)) as H.
  cbv zeta in H |- *.
  destruct (channel_flow_control _ 64 5000) as [skip c'].
  destruct H as [_ H].
  destruct (H ltac:(vm_compute; intros E; discriminate E)) as [_ H2].
  destruct (H2 ltac:(vm_compute; intros E; discriminate E)) as (_ & _ & H3 & _).
  destruct (H3 ltac:(vm_compute; intros E; discriminate E)) as (Hs & _ & Hl).
  split; [rewrite Hs; vm_compute; reflexivity|rewrite Hl, Hs; vm_compute; reflexivity].
Defined.

(** ** Loops over the pin table *)

Lemma fold_left_ext_in {A B} (g h : A -> B -> A) (l : list B) (a : A) :
  (forall b x, In b l -> g x b = h x b) -> fold_left g l a = fold_left h l a.
Proof.
  revert a. induction l as [|b l IH]; intros a H; simpl; [reflexivity|].
  rewrite H by (left; reflexivity). apply IH. intros. apply H. right. assumption.
Qed.

Lemma filter_ext_in' {A} (p q : A -> bool) (l : list A) :
  (forall x, In x l -> p x = q x) -> filter p l = filter q l.
Proof.
  induction l as [|x l IH]; intros H; simpl; [reflexivity|].
  rewrite H by (left; reflexivity). rewrite IH by (intros; apply H; right; assumption).
  reflexivity.
Qed.

(** *** The bypass scan *)

(** Whether connected pin [j] counts as active for the bypass detector, and
    its channel after the scan. *)
Definition pin_active (f : Filter) (chans : nat -> Channel) (j : nat) : bool :=
  match inputs f j with
  | Some q => fst (bypass_pin (ticker_time f) q (chans j))
  | None => false
  end.

Definition pin_after (f : Filter) (chans : nat -> Channel) (j : nat) : Channel :=
  match inputs f j with
  | Some q => snd (bypass_pin (ticker_time f) q (chans j))
  | None => chans j
  end.

(** The number of active pins the scan counts. *)
Definition active_count (f : Filter) (chans : nat -> Channel) : Z :=
  snd (fst (bypass_scan f chans)).

Definition last_of (l : list nat) (ai : Z) : Z := fold_left (fun _ j => Z.of_nat j) l ai.

Lemma bypass_scan_fold (f : Filter) (idx : list nat) :
  NoDup idx -> forall chans cnt ai,
  let '(chans', cnt', ai') := fold_left (bypass_scan_step f) idx (chans, cnt, ai) in
  (forall j, chans' j = if in_dec Nat.eq_dec j idx then pin_after f chans j else chans j) /\
  cnt' = cnt + Z.of_nat (length (filter (pin_active f chans) idx)) /\
  ai' = last_of (filter (pin_active f chans) idx) ai.
Proof.
  induction idx as [|i rest IH]; intros Hnd chans cnt ai.
  - simpl. split; [intros; reflexivity|split; [lia|reflexivity]].
  - cbn [fold_left]. inversion Hnd as [|? ? Hni Hnd']; subst.
    destruct (bypass_scan_step f (chans, cnt, ai) i) as [[chans1 cnt1] ai1] eqn:Hs.
    assert (Hstep : (forall j, j <> i -> chans1 j = chans j) /\
                    chans1 i = pin_after f chans i /\
                    cnt1 = cnt + (if pin_active f chans i then 1 else 0) /\
                    ai1 = (if pin_active f chans i then Z.of_nat i else ai)).
    { unfold bypass_scan_step, pin_active, pin_after in *.
      destruct (inputs f i) as [q|].
      - destruct (bypass_pin (ticker_time f) q (chans i)) as [[|] c'];
          injection Hs as <- <- <-; simpl;
          (split; [intros j Hj; apply upd_neq; exact Hj|]);
          (split; [apply upd_eq|split; [lia|reflexivity]]).
      - injection Hs as <- <- <-. repeat split; lia. }
    destruct Hstep as (H1 & H2 & H3 & H4).
    specialize (IH Hnd' chans1 cnt1 ai1).
    destruct (fold_left (bypass_scan_step f) rest (chans1, cnt1, ai1)) as [[c' n'] a'].
    destruct IH as (IHc & IHn & IHa).
    assert (Hact : forall j, In j rest -> pin_active f chans1 j = pin_active f chans j).
    { intros j Hj. unfold pin_active. rewrite H1 by congruence. reflexivity. }
    assert (Haft : forall j, In j rest -> pin_after f chans1 j = pin_after f chans j).
    { intros j Hj. unfold pin_after. rewrite H1 by congruence. reflexivity. }
    rewrite (filter_ext_in' _ _ _ Hact) in IHn, IHa.
    split; [|split].
    + intros j. rewrite IHc.
      destruct (in_dec Nat.eq_dec j rest) as [Hj|Hj];
        destruct (in_dec Nat.eq_dec j (i :: rest)) as [Hj'|Hj'].
      * apply Haft; exact Hj.
      * exfalso. apply Hj'. right. exact Hj.
      * destruct Hj' as [<-|Hj']; [exact H2|contradiction].
      * rewrite H1; [reflexivity|]. intros ->. apply Hj'. left. reflexivity.
    + rewrite IHn, H3. cbn [filter].
      destruct (pin_active f chans i); cbn [length]; lia.
    + rewrite IHa, H4. cbn [filter]. destruct (pin_active f chans i); reflexivity.
Qed.

Lemma bypass_scan_spec (f : Filter) (chans : nat -> Channel) :
  let '(chans', cnt, ai) := bypass_scan f chans in
  (forall j, chans' j = if in_dec Nat.eq_dec j (seq 0 MIXER_MAX_CHANNELS)
                        then pin_after f chans j else chans j) /\
  cnt = Z.of_nat (length (filter (pin_active f chans) (seq 0 MIXER_MAX_CHANNELS))) /\
  ai = last_of (filter (pin_active f chans) (seq 0 MIXER_MAX_CHANNELS)) (-1).
Proof.
  unfold bypass_scan. pose proof (bypass_scan_fold f _ (seq_NoDup MIXER_MAX_CHANNELS 0) chans 0 (-1)).
  destruct (fold_left _ _ _) as [[c n] a]. destruct H as (H1 & H2 & H3).
  split; [exact H1|split; [lia|exact H3]].
Qed.

(** *** Forwarding in bypass mode *)

(** Connected and enabled output pins, and those [mixer_dispatch_output]
    forwards to (not the active input's own pin in conference mode). *)
Definition out_ready (outs : nat -> option queue) (chans : nat -> Channel) (j : nat) : bool :=
  match outs j with Some _ => output_enabled (chans j) | None => false end.

Definition eligible (outs : nat -> option queue) (chans : nat -> Channel) (conf ai : Z)
    (j : nat) : bool :=
  out_ready outs chans j && (negb (ai =? Z.of_nat j) || (conf =? 0)).

Lemma map_dupmsg (q : queue) : map dupmsg q = q.
Proof. induction q as [|[d p] q IH]; simpl; [reflexivity|now rewrite IH]. Qed.

Lemma eligible_ready outs chans conf ai j :
  eligible outs chans conf ai j = true -> out_ready outs chans j = true.
Proof. unfold eligible. now intros [H _]%andb_prop. Qed.

Lemma filter_length_in {A} (p : A -> bool) (l : list A) (x : A) :
  In x l -> p x = true -> (1 <= length (filter p l))%nat.
Proof.
  induction l as [|y l IH]; intros Hin Hp; [destruct Hin|].
  simpl. destruct Hin as [<-|Hin]; [rewrite Hp; simpl; lia|].
  destruct (p y); simpl; [lia|]. apply IH; assumption.
Qed.

Lemma dispatch_loop_spec idx single conf chans ai inq :
  NoDup idx -> forall outs,
  (single = true -> (length (filter (out_ready outs chans) idx) <= 1)%nat) ->
  forall j,
  (In j idx -> eligible outs chans conf ai j = true ->
     snd (dispatch_loop idx single conf chans ai inq outs) j = Some (queue_of (outs j) ++ inq)) /\
  (~ In j idx \/ eligible outs chans conf ai j = false ->
     snd (dispatch_loop idx single conf chans ai inq outs) j = outs j).
Proof.
  induction idx as [|i rest IH]; intros Hnd outs Hcnt j.
  - split; [intros []|intros _; reflexivity].
  - inversion Hnd as [|? ? Hni Hnd']; subst.
    cbn [dispatch_loop].
    assert (Hcnt' : single = true -> (length (filter (out_ready outs chans) rest) <= 1)%nat).
    { intros Hs. specialize (Hcnt Hs). cbn [filter] in Hcnt.
      destruct (out_ready outs chans i); cbn [length] in Hcnt; lia. }
    destruct (outs i) as [outq|] eqn:Eo.
    + destruct (output_enabled (chans i) && (negb (ai =? Z.of_nat i) || (conf =? 0))) eqn:Ee.
      * assert (Hel : eligible outs chans conf ai i = true)
          by (unfold eligible, out_ready; rewrite Eo; exact Ee).
        destruct single.
        -- cbn [snd].
           assert (Hnone : forall k, In k rest -> eligible outs chans conf ai k = false).
           { intros k Hk. destruct (eligible outs chans conf ai k) eqn:Ek; [|reflexivity].
             exfalso. specialize (Hcnt eq_refl). cbn [filter] in Hcnt.
             rewrite (eligible_ready _ _ _ _ _ Hel) in Hcnt. cbn [length] in Hcnt.
             pose proof (filter_length_in (out_ready outs chans) rest k Hk
                           (eligible_ready _ _ _ _ _ Ek)). lia. }
           split.
           ++ intros [<-|Hin] Hj; [rewrite upd_eq, Eo; reflexivity|].
              rewrite Hnone in Hj by exact Hin. discriminate.
           ++ intros Hj. rewrite upd_neq; [reflexivity|]. intros ->.
              destruct Hj as [Hj|Hj]; [apply Hj; left; reflexivity|congruence].
        -- set (outs1 := upd outs i (Some (outq ++ map dupmsg inq))).
           assert (Hel1 : forall k, k <> i ->
                     eligible outs1 chans conf ai k = eligible outs chans conf ai k).
           { intros k Hk. unfold eligible, out_ready, outs1. rewrite upd_neq by exact Hk.
             reflexivity. }
           destruct (IH Hnd' outs1 (fun H => ltac:(discriminate H)) j) as [IH1 IH2].
           destruct (Nat.eq_dec j i) as [->|Hji].
           ++ assert (Hr : snd (dispatch_loop rest false conf chans ai inq outs1) i =
                           Some (outq ++ inq)).
              { rewrite IH2 by (left; exact Hni). unfold outs1.
                rewrite upd_eq, map_dupmsg. reflexivity. }
              split; [intros _ _; rewrite Hr, Eo; reflexivity|].
              intros [H|H]; [exfalso; apply H; left; reflexivity|congruence].
           ++ assert (Ho1 : outs1 j = outs j) by (apply upd_neq; exact Hji).
              rewrite Hel1 in IH1, IH2 by exact Hji. rewrite Ho1 in IH1, IH2.
              split.
              ** intros [->|Hin]; [congruence|]. apply IH1; exact Hin.
              ** intros H. apply IH2. destruct H as [H|H]; [left|right; exact H].
                 intros Hin. apply H. right. exact Hin.
      * assert (Hel : eligible outs chans conf ai i = false)
          by (unfold eligible, out_ready; rewrite Eo; exact Ee).
        destruct (IH Hnd' outs Hcnt' j) as [IH1 IH2].
        split.
        -- intros [->|Hin] Hj; [congruence|]. apply IH1; assumption.
        -- intros H. apply IH2. destruct H as [H|H]; [left|right; exact H].
           intros Hin. apply H. right. exact Hin.
    + assert (Hel : eligible outs chans conf ai i = false)
        by (unfold eligible, out_ready; rewrite Eo; reflexivity).
      destruct (IH Hnd' outs Hcnt' j) as [IH1 IH2].
      split.
      * intros [->|Hin] Hj; [congruence|]. apply IH1; assumption.
      * intros H. apply IH2. destruct H as [H|H]; [left|right; exact H].
        intros Hin. apply H. right. exact Hin.
Qed.

(** *** The output loop of the scalar summation path *)

Lemma put_output_spec (f : Filter) (i : nat) (m : mblk) (q : queue) :
  outputs f i = Some q ->
  inputs (put_output f i m) = inputs f /\
  outputs (put_output f i m) i = Some (q ++ [m]) /\
  (forall j, j <> i -> outputs (put_output f i m) j = outputs f j).
Proof.
  intros H. unfold put_output. rewrite H. simpl.
  split; [reflexivity|split; [apply upd_eq|intros j Hj; apply upd_neq; exact Hj]].
Qed.

(** The frame every listener gets, and the one of a contributing channel in
    conference mode. *)
Definition generic_payload (sum : list Z) (n : nat) : list Z :=
  encode16 (Scalar.copy_to_out sum n).

Definition self_payload (chan : Channel) (sum : list Z) (n : nat) : list Z :=
  encode16 (Scalar.subtract_and_copy_to_out sum (input chan) n).

Definition self_excluded (conf : Z) (chan : Channel) : bool :=
  active chan && had_input chan && negb (conf =? 0).

(** What output [j] receives from the loop: one message, own mix or the
    generic frame on data block [d]. *)
Definition scalar_out_ok (conf : Z) (chans : nat -> Channel) (sum : list Z) (n : nat)
    (d : nat) (j : nat) (before after : option queue) : Prop :=
  exists m, after = Some (queue_of before ++ [m]) /\
    (if self_excluded conf (chans j)
     then payload m = self_payload (chans j) sum n
     else m = mk_mblk d (generic_payload sum n)).

Lemma mix_out_loop_spec idx n conf chans sum :
  NoDup idx -> forall cached f,
  (forall c, cached = Some c -> payload c = generic_payload sum n) ->
  exists d, (forall c, cached = Some c -> d = db c) /\
  let f' := Scalar.mix_out_loop idx n conf chans sum cached f in
  inputs f' = inputs f /\
  forall j,
    (In j idx -> out_ready (outputs f) chans j = true ->
       scalar_out_ok conf chans sum n d j (outputs f j) (outputs f' j)) /\
    (~ In j idx \/ out_ready (outputs f) chans j = false -> outputs f' j = outputs f j).
Proof.
  induction idx as [|i rest IH]; intros Hnd cached f Hc.
  - exists (match cached with Some c => db c | None => O end).
    split; [intros c ->; reflexivity|].
    split; [reflexivity|]. intros j. split; [intros []|intros _; reflexivity].
  - inversion Hnd as [|? ? Hni Hnd']; subst. cbn [Scalar.mix_out_loop].
    (* the shape of one iteration: output [i] gets [m], the rest goes on *)
    assert (Step : forall f1 cached1 m,
              (forall c, cached1 = Some c -> payload c = generic_payload sum n) ->
              out_ready (outputs f) chans i = true -> inputs f1 = inputs f ->
              outputs f1 i = Some (queue_of (outputs f i) ++ [m]) ->
              (forall j, j <> i -> outputs f1 j = outputs f j) ->
              (forall d, (forall c, cached1 = Some c -> d = db c) ->
                 (forall c, cached = Some c -> d = db c) /\
                 (if self_excluded conf (chans i)
                  then payload m = self_payload (chans i) sum n
                  else m = mk_mblk d (generic_payload sum n))) ->
              exists d, (forall c, cached = Some c -> d = db c) /\
              let f' := Scalar.mix_out_loop rest n conf chans sum cached1 f1 in
              inputs f' = inputs f /\
              forall j,
                (In j (i :: rest) -> out_ready (outputs f) chans j = true ->
                   scalar_out_ok conf chans sum n d j (outputs f j) (outputs f' j)) /\
                (~ In j (i :: rest) \/ out_ready (outputs f) chans j = false ->
                   outputs f' j = outputs f j)).
    { intros f1 cached1 m Hc1 Hsome Hin1 Hi1 Hj1 Hd.
      destruct (IH Hnd' cached1 f1 Hc1) as (d & Hdc & Hin' & Hout').
      destruct (Hd d Hdc) as [Hdc' Hm].
      exists d. split; [exact Hdc'|]. split; [congruence|].
      intros j. destruct (Nat.eq_dec j i) as [->|Hji].
      - destruct (Hout' i) as [_ H2]. rewrite H2 by (left; exact Hni).
        split.
        + intros _ _. exists m. split; [exact Hi1|exact Hm].
        + intros [H|H]; [exfalso; apply H; left; reflexivity|congruence].
      - destruct (Hout' j) as [H1 H2].
        unfold out_ready in H1, H2 |- *. rewrite Hj1 in H1, H2 by exact Hji.
        split.
        + intros [->|Hin] Hr; [congruence|]. apply H1; assumption.
        + intros H. rewrite H2; [reflexivity|].
          destruct H as [H|H]; [left|right; exact H]. intros Hin. apply H. right. exact Hin. }
    assert (Skip : out_ready (outputs f) chans i = false ->
              exists d, (forall c, cached = Some c -> d = db c) /\
              let f' := Scalar.mix_out_loop rest n conf chans sum cached f in
              inputs f' = inputs f /\
              forall j,
                (In j (i :: rest) -> out_ready (outputs f) chans j = true ->
                   scalar_out_ok conf chans sum n d j (outputs f j) (outputs f' j)) /\
                (~ In j (i :: rest) \/ out_ready (outputs f) chans j = false ->
                   outputs f' j = outputs f j)).
    { intros Hnr. destruct (IH Hnd' cached f Hc) as (d & Hdc & Hin' & Hout').
      exists d. split; [exact Hdc|]. split; [exact Hin'|].
      intros j. destruct (Hout' j) as [H1 H2]. split.
      - intros [->|Hin] Hr; [congruence|]. apply H1; assumption.
      - intros H. destruct (Nat.eq_dec j i) as [->|Hji].
        + apply H2. left. exact Hni.
        + apply H2. destruct H as [H|H]; [left|right; exact H].
          intros Hin. apply H. right. exact Hin. }
    destruct (outputs f i) as [q0|] eqn:Eo; [|apply Skip; unfold out_ready; rewrite Eo; reflexivity].
    cbv zeta.
    assert (Hr : output_enabled (chans i) = true -> out_ready (outputs f) chans i = true)
      by (unfold out_ready; rewrite Eo; tauto).
    destruct (output_enabled (chans i)) eqn:Een;
      [|apply Skip; unfold out_ready; rewrite Eo; exact Een].
    specialize (Hr eq_refl).
    unfold allocb. cbv beta iota.
    destruct (active (chans i) && had_input (chans i) && negb (conf =? 0)) eqn:Es.
    + pose proof (put_output_spec (set_next_db f (S (next_db f))) i
                    (mk_mblk (next_db f) (encode16 (Scalar.subtract_and_copy_to_out sum
                       (input (chans i)) n))) q0 Eo) as (P1 & P2 & P3).
      eapply Step; [exact Hc|exact Hr|exact P1|rewrite P2; reflexivity|exact P3|].
      intros d Hd. split; [exact Hd|]. unfold self_excluded. rewrite Es. reflexivity.
    + destruct cached as [c|].
      * pose proof (put_output_spec f i (dupb c) q0 Eo) as (P1 & P2 & P3).
        eapply Step; [exact Hc|exact Hr|exact P1|rewrite P2; reflexivity|exact P3|].
        intros d Hd. split; [exact Hd|]. unfold self_excluded. rewrite Es.
        unfold dupb. rewrite (Hc c eq_refl), (Hd c eq_refl). reflexivity.
      * pose proof (put_output_spec (set_next_db f (S (next_db f))) i
                      (mk_mblk (next_db f) (encode16 (Scalar.copy_to_out sum n))) q0 Eo)
          as (P1 & P2 & P3).
        eapply Step; [|exact Hr|exact P1|rewrite P2; reflexivity|exact P3|].
        -- intros c Hcc. injection Hcc as <-. reflexivity.
        -- intros d Hd. split; [intros c Hcc; discriminate|].
           unfold self_excluded. rewrite Es. rewrite (Hd _ eq_refl). reflexivity.
Qed.

(** *** The summing loop *)

(** Both summing loops have this shape: a connected pin's channel becomes
    [cp chan q], the accumulator [sp chan q sum], and its queue is emptied
    into the bufferizer. *)
Definition in_step (cp : Channel -> queue -> Channel) (sp : Channel -> queue -> list Z -> list Z)
    (acc : (nat -> Channel) * list Z * (nat -> option queue)) (i : nat)
    : (nat -> Channel) * list Z * (nat -> option queue) :=
  let '(chans, sum, ins) := acc in
  match ins i with
  | None => acc
  | Some q => (upd chans i (cp (chans i) q), sp (chans i) q sum, upd ins i (Some []))
  end.

Lemma in_step_fold cp sp idx :
  NoDup idx -> forall chans sum ins,
  let '(chans', sum', ins') := fold_left (in_step cp sp) idx (chans, sum, ins) in
  (forall j, chans' j = if in_dec Nat.eq_dec j idx
                        then match ins j with Some q => cp (chans j) q | None => chans j end
                        else chans j) /\
  sum' = fold_left (fun acc j => match ins j with Some q => sp (chans j) q acc | None => acc end)
           idx sum /\
  (forall j, ins' j = if in_dec Nat.eq_dec j idx
                      then match ins j with Some _ => Some [] | None => None end
                      else ins j).
Proof.
  induction idx as [|i rest IH]; intros Hnd chans sum ins.
  - simpl. split; [intros; reflexivity|split; [reflexivity|intros; reflexivity]].
  - cbn [fold_left]. inversion Hnd as [|? ? Hni Hnd']; subst.
    destruct (in_step cp sp (chans, sum, ins) i) as [[chans1 sum1] ins1] eqn:Hs.
    assert (Hstep : (forall j, j <> i -> chans1 j = chans j /\ ins1 j = ins j) /\
                    chans1 i = match ins i with Some q => cp (chans i) q | None => chans i end /\
                    ins1 i = match ins i with Some _ => Some [] | None => None end /\
                    sum1 = match ins i with Some q => sp (chans i) q sum | None => sum end).
    { unfold in_step in Hs. destruct (ins i) as [q|] eqn:Eq.
      - injection Hs as <- <- <-.
        split; [intros j Hj; split; apply upd_neq; exact Hj|].
        split; [apply upd_eq|split; [apply upd_eq|reflexivity]].
      - injection Hs as <- <- <-.
        split; [intros; split; reflexivity|].
        split; [reflexivity|split; [exact Eq|reflexivity]]. }
    destruct Hstep as (H1 & H2 & H3 & H4).
    specialize (IH Hnd' chans1 sum1 ins1).
    destruct (fold_left (in_step cp sp) rest (chans1, sum1, ins1)) as [[c' s'] i'].
    destruct IH as (IHc & IHs & IHi).
    split; [|split].
    + intros j. rewrite IHc.
      destruct (in_dec Nat.eq_dec j rest) as [Hj|Hj];
        destruct (in_dec Nat.eq_dec j (i :: rest)) as [Hj'|Hj'].
      * assert (j <> i) by congruence. destruct (H1 j H) as [-> ->]. reflexivity.
      * exfalso. apply Hj'. right. exact Hj.
      * destruct Hj' as [<-|Hj']; [exact H2|contradiction].
      * assert (j <> i) by (intros ->; apply Hj'; left; reflexivity).
        destruct (H1 j H) as [-> _]. reflexivity.
    + rewrite IHs, H4. cbn [fold_left]. apply fold_left_ext_in.
      intros b x Hb. assert (b <> i) by congruence. destruct (H1 b H) as [-> ->]. reflexivity.
    + intros j. rewrite IHi.
      destruct (in_dec Nat.eq_dec j rest) as [Hj|Hj];
        destruct (in_dec Nat.eq_dec j (i :: rest)) as [Hj'|Hj'].
      * assert (j <> i) by congruence. destruct (H1 j H) as [_ ->]. reflexivity.
      * exfalso. apply Hj'. right. exact Hj.
      * destruct Hj' as [<-|Hj']; [exact H3|contradiction].
      * assert (j <> i) by (intros ->; apply Hj'; left; reflexivity).
        destruct (H1 j H) as [_ ->]. reflexivity.
Qed.

(** The scalar loop body in that shape. *)
Definition scalar_cp (spt thr time : Z) (c : Channel) (q : queue) : Channel :=
  snd (channel_flow_control (Scalar.channel_drain spt c q) thr time).

Definition scalar_sp (spt : Z) (c : Channel) (q : queue) (sum : list Z) : list Z :=
  let c1 := Scalar.channel_drain spt c q in
  if had_input c1 then accumulate sum (input c1) (Z.to_nat spt) else sum.

Lemma scalar_mix_in_step_eq spt thr time acc i :
  Scalar.mix_in_step spt thr time acc i = in_step (scalar_cp spt thr time) (scalar_sp spt) acc i.
Proof.
  destruct acc as [[chans sum] ins]. unfold Scalar.mix_in_step, in_step.
  destruct (ins i); reflexivity.
Qed.

(** The vectorized loop body in that shape. *)
Lemma avx2_process_in_chan c q sum1 sum2 n :
  fst (Avx2.channel_process_in c q sum1 n) = fst (Avx2.channel_process_in c q sum2 n).
Proof.
  unfold Avx2.channel_process_in.
  destruct (ms_bufferizer_read _ _) as [[r data] b'].
  destruct (negb (r =? 0)); [|reflexivity].
  destruct (active _); reflexivity.
Qed.

Definition avx2_cp (nw thr time : Z) (c : Channel) (q : queue) : Channel :=
  snd (channel_flow_control (fst (Avx2.channel_process_in c q [] nw)) thr time).

Definition avx2_sp (nw : Z) (c : Channel) (q : queue) (sum : list Z) : list Z :=
  snd (Avx2.channel_process_in c q sum nw).

Lemma avx2_mix_in_step_eq nw thr time acc i :
  Avx2.mix_in_step nw thr time acc i = in_step (avx2_cp nw thr time) (avx2_sp nw) acc i.
Proof.
  destruct acc as [[chans sum] ins]. unfold Avx2.mix_in_step, in_step, avx2_cp, avx2_sp.
  destruct (ins i) as [q|]; [|reflexivity].
  rewrite (avx2_process_in_chan (chans i) q [] sum nw).
  destruct (Avx2.channel_process_in (chans i) q sum nw). reflexivity.
Qed.

(** *** What each step leaves untouched *)

Lemma bypass_pin_only_activity t q c :
  snd (bypass_pin t q c) = set_last_activity c (last_activity (snd (bypass_pin t q c))).
Proof.
  unfold bypass_pin.
  destruct (negb (ms_queue_empty q)); [reflexivity|].
  destruct (last_activity c =? U64_MAX); [reflexivity|].
  destruct (u64 (t - last_activity c) <? BYPASS_MODE_TIMEOUT); destruct c; reflexivity.
Qed.

Lemma pin_after_fields f chans j :
  let c := pin_after f chans j in
  bufferizer c = bufferizer (chans j) /\ input c = input (chans j) /\
  min_fullness c = min_fullness (chans j) /\ last_flow_control c = last_flow_control (chans j) /\
  active c = active (chans j) /\ output_enabled c = output_enabled (chans j) /\
  had_input c = had_input (chans j).
Proof.
  unfold pin_after. destruct (inputs f j) as [q|]; [|repeat split].
  rewrite bypass_pin_only_activity. repeat split.
Qed.

Lemma flow_control_fields c thr t :
  let c' := snd (channel_flow_control c thr t) in
  input c' = input c /\ last_activity c' = last_activity c /\ active c' = active c /\
  output_enabled c' = output_enabled c /\ had_input c' = had_input c.
Proof.
  unfold channel_flow_control.
  destruct (last_flow_control c =? U64_MAX); [repeat split|].
  destruct (u64 _ >=? 5000); [destruct (_ >=? thr)|]; repeat split.
Qed.

Lemma channel_drain_fields spt c q :
  let c' := Scalar.channel_drain spt c q in
  last_activity c' = last_activity c /\ active c' = active c /\
  output_enabled c' = output_enabled c /\ min_fullness c' = min_fullness c /\
  last_flow_control c' = last_flow_control c.
Proof.
  unfold Scalar.channel_drain. cbv zeta.
  destruct (ms_bufferizer_read _ _) as [[r data] b'].
  destruct (negb (r =? 0)); simpl; [destruct (active c) eqn:Ea; simpl; rewrite ?Ea|];
    repeat split.
Qed.

Lemma channel_drain_had_input spt c q :
  had_input (Scalar.channel_drain spt c q) =
  active c && negb (spt * 2 =? 0) &&
  (spt * 2 <=? Z.of_nat (length (ms_bufferizer_put_from_queue (bufferizer c) q))).
Proof.
  unfold Scalar.channel_drain, ms_bufferizer_read. cbn [bufferizer set_had_input].
  set (b := ms_bufferizer_put_from_queue (bufferizer c) q).
  destruct (Z.of_nat (length b) >=? spt * 2) eqn:E.
  - apply Z.geb_le in E. rewrite (proj2 (Z.leb_le _ _) E), andb_true_r.
    destruct (spt * 2 =? 0); simpl; [destruct (active c); reflexivity|].
    destruct (active c); reflexivity.
  - rewrite Z.geb_leb, Z.leb_gt in E. rewrite (proj2 (Z.leb_gt _ _) E), andb_false_r.
    simpl. reflexivity.
Qed.

Lemma process_in_fields c q sum n :
  let c' := fst (Avx2.channel_process_in c q sum n) in
  last_activity c' = last_activity c /\ active c' = active c /\
  output_enabled c' = output_enabled c /\ min_fullness c' = min_fullness c /\
  last_flow_control c' = last_flow_control c.
Proof.
  unfold Avx2.channel_process_in. cbv zeta.
  destruct (ms_bufferizer_read _ _) as [[r data] b'].
  destruct (negb (r =? 0)); simpl; [destruct (active c) eqn:Ea; simpl; rewrite ?Ea|];
    repeat split.
Qed.

(** *** One tick of the scalar mixer that reaches the summation *)

Definition after_scan (f : Filter) (chans : nat -> Channel) (j : nat) : Channel :=
  if in_dec Nat.eq_dec j (seq 0 MIXER_MAX_CHANNELS) then pin_after f chans j else chans j.

Lemma check_bypass_full f chans bm single conf :
  1 < active_count f chans ->
  mixer_check_bypass f chans bm single conf = (false, fst (fst (bypass_scan f chans)), false, f).
Proof.
  unfold active_count, mixer_check_bypass. intros H.
  destruct (bypass_scan f chans) as [[c n] a]. simpl in H.
  rewrite (proj2 (Z.eqb_neq n 1)) by lia. rewrite (proj2 (Z.gtb_lt n 1)) by lia.
  reflexivity.
Qed.

Lemma scan_channels f chans j : fst (fst (bypass_scan f chans)) j = after_scan f chans j.
Proof.
  pose proof (bypass_scan_spec f chans) as H.
  destruct (bypass_scan f chans) as [[c n] a]. apply (proj1 H).
Qed.

Lemma scalar_full_tick s f :
  1 < active_count f (Scalar.channels s) ->
  let chb := after_scan f (Scalar.channels s) in
  let spt := Scalar.samplespertick s in
  let '(s', f') := Scalar.mixer_process s f in
  (forall j, Scalar.channels s' j =
     if in_dec Nat.eq_dec j (seq 0 MIXER_MAX_CHANNELS)
     then match inputs f j with
          | Some q => scalar_cp spt (Scalar.skip_threshold s) (ticker_time f) (chb j) q
          | None => chb j end
     else chb j) /\
  Scalar.sum s' =
    fold_left (fun acc j => match inputs f j with Some q => scalar_sp spt (chb j) q acc | None => acc end)
      (seq 0 MIXER_MAX_CHANNELS) (repeat 0 (Z.to_nat spt)) /\
  Scalar.bypass_mode s' = false /\
  exists ins2,
    (forall j, ins2 j = if in_dec Nat.eq_dec j (seq 0 MIXER_MAX_CHANNELS)
                        then match inputs f j with Some _ => Some [] | None => None end
                        else inputs f j) /\
    f' = Scalar.mix_out_loop (seq 0 MIXER_MAX_CHANNELS) (Z.to_nat spt) (Scalar.conf_mode s)
           (Scalar.channels s') (Scalar.sum s') None (set_inputs f ins2).
Proof.
  intros Hc. unfold Scalar.mixer_process.
  rewrite (check_bypass_full _ _ _ _ _ Hc). cbv beta iota.
  unfold Scalar.mix_in.
  set (chb0 := fst (fst (bypass_scan f (Scalar.channels s)))).
  cbn [Scalar.samplespertick Scalar.skip_threshold Scalar.set_bypass_mode Scalar.set_channels].
  rewrite (fold_left_ext_in _ (in_step (scalar_cp (Scalar.samplespertick s) (Scalar.skip_threshold s)
             (ticker_time f)) (scalar_sp (Scalar.samplespertick s))))
    by (intros; apply scalar_mix_in_step_eq).
  pose proof (in_step_fold (scalar_cp (Scalar.samplespertick s) (Scalar.skip_threshold s)
             (ticker_time f)) (scalar_sp (Scalar.samplespertick s)) _ (seq_NoDup MIXER_MAX_CHANNELS 0)
             chb0 (repeat 0 (Z.to_nat (Scalar.samplespertick s))) (inputs f)) as H.
  destruct (fold_left _ _ _) as [[chans2 sum2] ins2].
  destruct H as (Hc2 & Hs2 & Hi2).
  cbn [Scalar.channels Scalar.sum Scalar.set_sum Scalar.set_channels Scalar.bypass_mode
       Scalar.conf_mode].
  split; [|split; [|split; [reflexivity|exists ins2; split; [exact Hi2|reflexivity]]]].
  - intros j. rewrite Hc2. subst chb0. rewrite !scan_channels. reflexivity.
  - rewrite Hs2. apply fold_left_ext_in. intros j acc _. subst chb0.
    rewrite scan_channels. reflexivity.
Qed.

Lemma in_channels j : (j < MIXER_MAX_CHANNELS)%nat -> In j (seq 0 MIXER_MAX_CHANNELS).
Proof. intros H. apply in_seq. lia. Qed.

Lemma after_scan_fields f chans j :
  let c := after_scan f chans j in
  bufferizer c = bufferizer (chans j) /\ input c = input (chans j) /\
  min_fullness c = min_fullness (chans j) /\ last_flow_control c = last_flow_control (chans j) /\
  active c = active (chans j) /\ output_enabled c = output_enabled (chans j) /\
  had_input c = had_input (chans j).
Proof.
  unfold after_scan. destruct (in_dec _ _ _); [apply pin_after_fields|repeat split].
Qed.

Lemma scalar_cp_fields spt thr t c q :
  let c' := scalar_cp spt thr t c q in
  let c1 := Scalar.channel_drain spt c q in
  input c' = input c1 /\ had_input c' = had_input c1 /\
  active c' = active c /\ output_enabled c' = output_enabled c /\
  last_activity c' = last_activity c.
Proof.
  unfold scalar_cp. cbv zeta.
  destruct (flow_control_fields (Scalar.channel_drain spt c q) thr t) as (F1 & F2 & F3 & F4 & F5).
  destruct (channel_drain_fields spt c q) as (D1 & D2 & D3 & _).
  rewrite F1, F2, F3, F4, F5, D1, D2, D3. repeat split.
Qed.

(** After a full tick, the flags the output loop reads. *)
Lemma scalar_tick_output_enabled s f j :
  1 < active_count f (Scalar.channels s) ->
  output_enabled (Scalar.channels (fst (Scalar.mixer_process s f)) j) =
  output_enabled (Scalar.channels s j) /\
  active (Scalar.channels (fst (Scalar.mixer_process s f)) j) = active (Scalar.channels s j).
Proof.
  intros Hc. pose proof (scalar_full_tick s f Hc) as T. cbv zeta in T.
  destruct (Scalar.mixer_process s f) as [s' f'].
  destruct T as (Hch & _). cbn [fst]. rewrite Hch.
  destruct (after_scan_fields f (Scalar.channels s) j) as (_ & _ & _ & _ & A & O & _).
  destruct (in_dec _ _ _); [destruct (inputs f j) as [q|]|]; auto.
  destruct (scalar_cp_fields (Scalar.samplespertick s) (Scalar.skip_threshold s) (ticker_time f)
              (after_scan f (Scalar.channels s) j) q) as (_ & _ & A' & O' & _).
  rewrite A', O', A, O. auto.
Qed.

(** ** C1: the conference mix *)

(** The conference mix of audiomixer2.c: on a tick that reaches the
    summation (more than one pin counted active) in conference mode, the
    [had_input] flag of every pin whose input is connected is recomputed (the
    channel is active and read a full tick block); the accumulator is the sum
    of the blocks of the connected channels that had input; and every
    connected and enabled output pin [j] receives exactly one frame.  If
    channel [j] is active and its [had_input] flag is set, whether recomputed
    on this tick or not, the frame holds [saturate(sum - input of j)];
    every other such output gets a frame on one and the same data block [d],
    holding [saturate(sum)]. *)
Theorem conference_mix_outputs (s : Scalar.MixerState) (f : Filter)
    (Hc : 1 < active_count f (Scalar.channels s)) (Hconf : Scalar.conf_mode s <> 0) :
   let n := Z.to_nat (Scalar.samplespertick s) in
   let '(s', f') := Scalar.mixer_process s f in
   let ch := Scalar.channels s' in
   (forall j q, (j < MIXER_MAX_CHANNELS)%nat -> inputs f j = Some q ->
      had_input (ch j) =
        active (Scalar.channels s j) && negb (Scalar.samplespertick s * 2 =? 0) &&
        (Scalar.samplespertick s * 2 <=?
           Z.of_nat (length (ms_bufferizer_put_from_queue (bufferizer (Scalar.channels s j)) q)))) /\
   Scalar.sum s' =
     fold_left (fun acc j => match inputs f j with
                             | Some _ => if had_input (ch j) then accumulate acc (input (ch j)) n
                                         else acc
                             | None => acc end)
       (seq 0 MIXER_MAX_CHANNELS) (repeat 0 n) /\
   exists d, forall j, (j < MIXER_MAX_CHANNELS)%nat ->
     (out_ready (outputs f) (Scalar.channels s) j = true ->
        exists m, outputs f' j = Some (queue_of (outputs f j) ++ [m]) /\
          if active (ch j) && had_input (ch j)
          then payload m = encode16 (Scalar.subtract_and_copy_to_out (Scalar.sum s') (input (ch j)) n)
          else m = mk_mblk d (encode16 (Scalar.copy_to_out (Scalar.sum s') n))) /\
     (out_ready (outputs f) (Scalar.channels s) j = false -> outputs f' j = outputs f j).
Proof.
  intros n.
  pose proof (fun j => scalar_tick_output_enabled s f j Hc) as HO.
  pose proof (scalar_full_tick s f Hc) as T. cbv zeta in T.
  destruct (Scalar.mixer_process s f) as [s' f']. cbn [fst] in HO.
  destruct T as (Hch & Hsum & _ & ins2 & _ & ->).
  set (spt := Scalar.samplespertick s) in *.
  set (chb := after_scan f (Scalar.channels s)) in *.
  assert (Hcp : forall j q, (j < MIXER_MAX_CHANNELS)%nat -> inputs f j = Some q ->
             Scalar.channels s' j = scalar_cp spt (Scalar.skip_threshold s) (ticker_time f) (chb j) q).
  { intros j q Hj Hq. rewrite Hch. destruct (in_dec _ _ _) as [_|Hn];
      [rewrite Hq; reflexivity|exfalso; apply Hn, in_channels, Hj]. }
  split; [|split].
  - intros j q Hj Hq. rewrite (Hcp j q Hj Hq).
    destruct (scalar_cp_fields spt (Scalar.skip_threshold s) (ticker_time f) (chb j) q)
      as (_ & -> & _).
    rewrite channel_drain_had_input. unfold chb.
    destruct (after_scan_fields f (Scalar.channels s) j) as (-> & _ & _ & _ & -> & _).
    reflexivity.
  - rewrite Hsum. apply fold_left_ext_in. intros j acc Hj.
    apply in_seq in Hj. destruct (inputs f j) as [q|] eqn:Hq; [|reflexivity].
    rewrite (Hcp j q ltac:(lia) Hq).
    destruct (scalar_cp_fields spt (Scalar.skip_threshold s) (ticker_time f) (chb j) q)
      as (-> & -> & _). reflexivity.
  - destruct (mix_out_loop_spec (seq 0 MIXER_MAX_CHANNELS) n (Scalar.conf_mode s)
                (Scalar.channels s') (Scalar.sum s') (seq_NoDup _ _) None (set_inputs f ins2)
                (fun c H => ltac:(discriminate H))) as (d & _ & _ & Hout).
    exists d. intros j Hj.
    assert (Hr : out_ready (outputs (set_inputs f ins2)) (Scalar.channels s') j =
                 out_ready (outputs f) (Scalar.channels s) j).
    { unfold out_ready. cbn [outputs set_inputs]. rewrite (proj1 (HO j)). reflexivity. }
    destruct (Hout j) as [H1 H2]. rewrite Hr in H1, H2.
    cbn [outputs set_inputs] in H1, H2.
    split.
    + intros Hrd. destruct (H1 (in_channels j Hj) Hrd) as (m & Hm & Hp).
      exists m. split; [exact Hm|].
      unfold self_excluded, self_payload, generic_payload in Hp.
      rewrite (proj2 (Z.eqb_neq _ _) Hconf), andb_true_r in Hp. exact Hp.
    + intros Hrd. apply H2. right. exact Hrd.
Qed.

(** The conference mix on the three talkers: three pins count active and
    conference mode is on. *)
Lemma conference_mix_outputs_witness :
  let s := scalar_conference (repeat 0 80) three_talkers in
  let f := three_talkers in
   let n := Z.to_nat (Scalar.samplespertick s) in
   let '(s', f') := Scalar.mixer_process s f in
   let ch := Scalar.channels s' in
   (forall j q, (j < MIXER_MAX_CHANNELS)%nat -> inputs f j = Some q ->
      had_input (ch j) =
        active (Scalar.channels s j) && negb (Scalar.samplespertick s * 2 =? 0) &&
        (Scalar.samplespertick s * 2 <=?
           Z.of_nat (length (ms_bufferizer_put_from_queue (bufferizer (Scalar.channels s j)) q)))) /\
   Scalar.sum s' =
     fold_left (fun acc j => match inputs f j with
                             | Some _ => if had_input (ch j) then accumulate acc (input (ch j)) n
                                         else acc
                             | None => acc end)
       (seq 0 MIXER_MAX_CHANNELS) (repeat 0 n) /\
   exists d, forall j, (j < MIXER_MAX_CHANNELS)%nat ->
     (out_ready (outputs f) (Scalar.channels s) j = true ->
        exists m, outputs f' j = Some (queue_of (outputs f j) ++ [m]) /\
          if active (ch j) && had_input (ch j)
          then payload m = encode16 (Scalar.subtract_and_copy_to_out (Scalar.sum s') (input (ch j)) n)
          else m = mk_mblk d (encode16 (Scalar.copy_to_out (Scalar.sum s') n))) /\
     (out_ready (outputs f) (Scalar.channels s) j = false -> outputs f' j = outputs f j).
Proof.
  exact (conference_mix_outputs (scalar_conference (repeat 0 80) three_talkers) three_talkers
           ltac:(vm_compute; reflexivity) ltac:(vm_compute; discriminate)).
Defined.

(** C1: the example's figure for A's output is off.  With the tick
    contributions A, B, C summed by [accumulate], A's own mix is
    [190, 35], not [190, 135]; the listener's mix is [290, -15]. *)
Lemma conference_example_not_135 :
  let A := [100; -50] in
  let B := [200; 30] in
  let C := [-10; 5] in
  let sum := accumulate (accumulate (accumulate (repeat 0 2) A 2) B 2) C 2 in
  Scalar.subtract_and_copy_to_out sum A 2 = map saturate_sample [190; 35] /\
  Scalar.subtract_and_copy_to_out sum A 2 <> map saturate_sample [190; 135] /\
  Scalar.copy_to_out sum 2 = map saturate_sample [290; -15].
Proof. vm_compute. split; [reflexivity|split; [congruence|reflexivity]]. Qed.

(** C1 (a flaw of the code): [had_input] is cleared only for a pin whose
    input is connected (audiomixer2.c, line 275); neither [channel_prepare]
    nor [mixer_postprocess] clears it.  A scalar mixer in conference mode
    runs one tick with four talkers, so channel 3 reads a block and gets
    [had_input] set; it is stopped ([mixer_postprocess]), the graph is
    relinked so that pins 3 and 4 only listen, and it is prepared again
    (its fresh buffers holding 1s).  On the first tick channel 3, active
    but with no input connected, contributes nothing, yet its output gets
    [saturate(sum - buffer)] = [289, -16, -1, ...], while the other
    listener, pin 4, gets the generic mix [290, -15, 0, ...]; talker A
    gets [190, 35]. *)
Theorem stale_had_input_listener :
  let s1 := fst (Scalar.mixer_process (scalar_conference (repeat 0 80) four_talkers) four_talkers) in
  let s2 := Scalar.mixer_preprocess (fun _ => repeat 1 80) (Scalar.mixer_postprocess s1)
              relinked_talkers in
  let f' := snd (Scalar.mixer_process s2 relinked_talkers) in
  inputs relinked_talkers 3 = None /\
  active (Scalar.channels s2 3) = true /\ had_input (Scalar.channels s2 3) = true /\
  output_samples (outputs f' 3) = Some [map (fun x => x - 1) (pad_tick [290; -15])] /\
  output_samples (outputs f' 4) = Some [pad_tick [290; -15]] /\
  output_samples (outputs f' 0) = Some [pad_tick [190; 35]].
Proof. vm_compute. repeat split. Qed.

(** *** Ticks that take the bypass shortcut *)

Lemma length_one {A} (l : list A) : length l = 1%nat -> exists k, l = [k].
Proof. destruct l as [|k [|]]; simpl; intros H; try discriminate. exists k; reflexivity. Qed.

Lemma out_ready_after_scan f chans j :
  out_ready (outputs f) (after_scan f chans) j = out_ready (outputs f) chans j.
Proof.
  unfold out_ready. destruct (after_scan_fields f chans j) as (_ & _ & _ & _ & _ & -> & _).
  reflexivity.
Qed.

Lemma eligible_after_scan f chans conf ai j :
  eligible (outputs f) (after_scan f chans) conf ai j = eligible (outputs f) chans conf ai j.
Proof. unfold eligible. rewrite out_ready_after_scan. reflexivity. Qed.

(** The number of connected and enabled outputs, as [has_single_output]
    counts them. *)
Lemma has_single_output_count f chans :
  has_single_output f chans = true ->
  length (filter (out_ready (outputs f) chans) (seq 0 MIXER_MAX_CHANNELS)) = 1%nat.
Proof. unfold has_single_output. intros H. apply Nat.eqb_eq in H. exact H. Qed.

Lemma check_bypass_none f chans bm single conf :
  active_count f chans = 0 ->
  mixer_check_bypass f chans bm single conf = (true, fst (fst (bypass_scan f chans)), bm, f).
Proof.
  unfold active_count, mixer_check_bypass. intros H.
  destruct (bypass_scan f chans) as [[c n] a]. simpl in H. subst n. reflexivity.
Qed.

Lemma check_bypass_one f chans bm single conf :
  active_count f chans = 1 ->
  exists ai, (ai < MIXER_MAX_CHANNELS)%nat /\ pin_active f chans ai = true /\
  mixer_check_bypass f chans bm single conf =
    (true, fst (fst (bypass_scan f chans)), true,
     mixer_dispatch_output f single conf (fst (fst (bypass_scan f chans))) (Z.of_nat ai)).
Proof.
  unfold active_count, mixer_check_bypass. intros H.
  pose proof (bypass_scan_spec f chans) as S.
  destruct (bypass_scan f chans) as [[c n] a]. simpl in H. subst n.
  destruct S as (_ & S2 & S3).
  assert (L : length (filter (pin_active f chans) (seq 0 MIXER_MAX_CHANNELS)) = 1%nat) by lia.
  destruct (length_one _ L) as [k Hk].
  assert (Hin : In k (filter (pin_active f chans) (seq 0 MIXER_MAX_CHANNELS)))
    by (rewrite Hk; left; reflexivity).
  apply filter_In in Hin. destruct Hin as [Hin Ha]. apply in_seq in Hin.
  exists k. split; [lia|split; [exact Ha|]].
  rewrite S3, Hk. reflexivity.
Qed.

(** What [mixer_dispatch_output] leaves in the output queues, under the
    invariant that [single_output] is set only when one output is ready. *)
Lemma dispatch_outputs f single conf chans ai :
  (single = true -> has_single_output f chans = true) ->
  forall j,
  outputs (mixer_dispatch_output f single conf chans (Z.of_nat ai)) j =
    if (j <? MIXER_MAX_CHANNELS)%nat && eligible (outputs f) chans conf (Z.of_nat ai) j
    then Some (queue_of (outputs f j) ++ queue_of (inputs f ai))
    else outputs f j.
Proof.
  intros Hs j. unfold mixer_dispatch_output. cbn [outputs set_inputs set_outputs].
  rewrite Nat2Z.id.
  assert (Hc : single = true ->
          (length (filter (out_ready (outputs f) chans) (seq 0 MIXER_MAX_CHANNELS)) <= 1)%nat).
  { intros H. rewrite (has_single_output_count f chans (Hs H)). lia. }
  destruct (dispatch_loop_spec (seq 0 MIXER_MAX_CHANNELS) single conf chans (Z.of_nat ai)
              (queue_of (inputs f ai)) (seq_NoDup _ _) (outputs f) Hc j) as [D1 D2].
  destruct (j <? MIXER_MAX_CHANNELS)%nat eqn:Ej; cbn [andb].
  - apply Nat.ltb_lt in Ej.
    destruct (eligible (outputs f) chans conf (Z.of_nat ai) j) eqn:Ee.
    + apply D1; [apply in_channels, Ej|reflexivity].
    + apply D2. right. reflexivity.
  - apply Nat.ltb_ge in Ej. apply D2. left. intros Hin. apply in_seq in Hin. lia.
Qed.

Lemma dispatch_inputs f single conf chans ai :
  inputs (mixer_dispatch_output f single conf chans (Z.of_nat ai)) = upd (inputs f) ai (Some []).
Proof. unfold mixer_dispatch_output. cbn [inputs set_inputs set_outputs]. rewrite Nat2Z.id. reflexivity. Qed.

Lemma has_single_output_ext f c1 c2 :
  (forall j, output_enabled (c1 j) = output_enabled (c2 j)) ->
  has_single_output f c1 = has_single_output f c2.
Proof.
  intros H. unfold has_single_output.
  rewrite (filter_ext_in' _ (fun i => match outputs f i with
                                      | Some _ => output_enabled (c2 i) | None => false end))
    by (intros j _; rewrite H; reflexivity).
  reflexivity.
Qed.

Lemma eligible_ext outs c1 c2 conf ai j :
  output_enabled (c1 j) = output_enabled (c2 j) ->
  eligible outs c1 conf ai j = eligible outs c2 conf ai j.
Proof. intros H. unfold eligible, out_ready. rewrite H. reflexivity. Qed.

Lemma scan_output_enabled f chans j :
  output_enabled (fst (fst (bypass_scan f chans)) j) = output_enabled (chans j).
Proof.
  rewrite scan_channels. destruct (after_scan_fields f chans j) as (_ & _ & _ & _ & _ & -> & _).
  reflexivity.
Qed.

(** A tick with exactly one active pin, as [mixer_check_bypass] leaves it:
    the frames of that pin are forwarded to the eligible outputs. *)
Lemma bypass_one_outputs (f : Filter) (chans : nat -> Channel) (bm single : bool) (conf : Z) :
  (single = true -> has_single_output f chans = true) ->
  active_count f chans = 1 ->
  exists ai, (ai < MIXER_MAX_CHANNELS)%nat /\ pin_active f chans ai = true /\
  let '(byp, chans', bm', f1) := mixer_check_bypass f chans bm single conf in
  byp = true /\ bm' = true /\ (forall j, chans' j = after_scan f chans j) /\
  inputs f1 = upd (inputs f) ai (Some []) /\
  forall j, outputs f1 j =
    if (j <? MIXER_MAX_CHANNELS)%nat && eligible (outputs f) chans conf (Z.of_nat ai) j
    then Some (queue_of (outputs f j) ++ queue_of (inputs f ai))
    else outputs f j.
Proof.
  intros Hs Hone.
  destruct (check_bypass_one f chans bm single conf Hone) as (ai & Hai & Ha & ->).
  exists ai. split; [exact Hai|split; [exact Ha|]].
  split; [reflexivity|split; [reflexivity|split; [apply scan_channels|split]]].
  - apply dispatch_inputs.
  - intros j. rewrite dispatch_outputs.
    + rewrite (eligible_ext _ _ chans) by apply scan_output_enabled. reflexivity.
    + intros H. rewrite (has_single_output_ext f _ chans) by apply scan_output_enabled.
      exact (Hs H).
Qed.

(** [mixer_process] of either strategy returns the filter of a tick that the
    bypass check settles. *)
Lemma scalar_process_bypassed s f chans bm f1 :
  mixer_check_bypass f (Scalar.channels s) (Scalar.bypass_mode s) (Scalar.single_output s)
    (Scalar.conf_mode s) = (true, chans, bm, f1) ->
  Scalar.mixer_process s f = (Scalar.set_bypass_mode (Scalar.set_channels s chans) bm, f1).
Proof. intros E. unfold Scalar.mixer_process. rewrite E. reflexivity. Qed.

Lemma avx2_process_bypassed s f chans bm f1 :
  mixer_check_bypass f (Avx2.channels s) (Avx2.bypass_mode s) (Avx2.single_output s)
    (Avx2.conf_mode s) = (true, chans, bm, f1) ->
  Avx2.mixer_process s f = (Avx2.set_bypass_mode (Avx2.set_channels s chans) bm, f1).
Proof. intros E. unfold Avx2.mixer_process. rewrite E. reflexivity. Qed.

(** *** Frame sizes *)

Lemma encode16_length xs : length (encode16 xs) = (2 * length xs)%nat.
Proof. induction xs as [|x xs IH]; simpl; [reflexivity|rewrite IH; lia]. Qed.

Lemma subtract_and_copy_to_out_length sum inp n :
  length (Scalar.subtract_and_copy_to_out sum inp n) = n.
Proof. unfold Scalar.subtract_and_copy_to_out. rewrite length_map, length_seq. reflexivity. Qed.

Lemma copy_to_out_length sum n : length (Scalar.copy_to_out sum n) = n.
Proof. unfold Scalar.copy_to_out. rewrite length_map, length_seq. reflexivity. Qed.

(** ** C4: frames per tick *)

(** C4 (corrected): what one scalar tick puts on the outputs, by the number
    [N] of pins the bypass detector counts active ([single_output] being
    what [has_single_output] computes, as [mixer_preprocess] and
    [mixer_enable_output] keep it).  With [N > 1] every connected, enabled
    output receives exactly one frame of [2 * samplespertick] bytes.  With
    [N = 1] the frames queued on the active pin are forwarded as they are
    (any number, any length) to the eligible outputs, and the active pin's
    own output gets nothing in conference mode.  With [N = 0] the filter is
    left untouched: no output receives a frame. *)
Theorem frames_per_tick (s : Scalar.MixerState) (f : Filter)
    (Hsingle : Scalar.single_output s = has_single_output f (Scalar.channels s)) :
  let N := active_count f (Scalar.channels s) in
  let n := Z.to_nat (Scalar.samplespertick s) in
  let f' := snd (Scalar.mixer_process s f) in
  (1 < N -> forall j, (j < MIXER_MAX_CHANNELS)%nat ->
     out_ready (outputs f) (Scalar.channels s) j = true ->
     exists m, outputs f' j = Some (queue_of (outputs f j) ++ [m]) /\
               length (payload m) = (2 * n)%nat) /\
  (N = 1 -> exists ai, (ai < MIXER_MAX_CHANNELS)%nat /\ pin_active f (Scalar.channels s) ai = true /\
     forall j, (j < MIXER_MAX_CHANNELS)%nat ->
       outputs f' j = if eligible (outputs f) (Scalar.channels s) (Scalar.conf_mode s) (Z.of_nat ai) j
                      then Some (queue_of (outputs f j) ++ queue_of (inputs f ai))
                      else outputs f j) /\
  (N = 0 -> f' = f).
Proof.
  intros N n f'. split; [|split].
  - intros Hc j Hj Hr.
    pose proof (fun j => scalar_tick_output_enabled s f j Hc) as HO.
    pose proof (scalar_full_tick s f Hc) as T. cbv zeta in T. subst f'.
    destruct (Scalar.mixer_process s f) as [s' f1]. cbn [fst] in HO. cbn [snd].
    destruct T as (_ & _ & _ & ins2 & _ & ->).
    destruct (mix_out_loop_spec (seq 0 MIXER_MAX_CHANNELS) n (Scalar.conf_mode s)
                (Scalar.channels s') (Scalar.sum s') (seq_NoDup _ _) None (set_inputs f ins2)
                (fun c H => ltac:(discriminate H))) as (d & _ & _ & Hout).
    destruct (Hout j) as [H1 _].
    assert (Hr' : out_ready (outputs (set_inputs f ins2)) (Scalar.channels s') j = true).
    { unfold out_ready in *. cbn [outputs set_inputs]. rewrite (proj1 (HO j)). exact Hr. }
    destruct (H1 (in_channels j Hj) Hr') as (m & Hm & Hp).
    exists m. split; [exact Hm|].
    destruct (self_excluded _ _).
    + rewrite Hp. unfold self_payload.
      rewrite encode16_length, subtract_and_copy_to_out_length. reflexivity.
    + rewrite Hp. cbn [payload]. unfold generic_payload.
      rewrite encode16_length, copy_to_out_length. reflexivity.
  - intros Hone.
    destruct (bypass_one_outputs f (Scalar.channels s) (Scalar.bypass_mode s) (Scalar.single_output s)
                (Scalar.conf_mode s) (fun H => eq_trans (eq_sym Hsingle) H) Hone)
      as (ai & Hai & Ha & B).
    exists ai. split; [exact Hai|split; [exact Ha|]].
    destruct (mixer_check_bypass _ _ _ _ _) as [[[byp c'] bm'] f1] eqn:E.
    destruct B as (-> & _ & _ & _ & Ho).
    subst f'. rewrite (scalar_process_bypassed s f _ _ _ E). cbn [snd].
    intros j Hj. rewrite Ho, (proj2 (Nat.ltb_lt _ _) Hj). reflexivity.
  - intros H0. subst f'.
    rewrite (scalar_process_bypassed s f _ _ _ (check_bypass_none _ _ _ _ _ H0)). reflexivity.
Qed.

(** C4, at the three talkers: the listener's output receives one frame of
    160 bytes (80 samples). *)
Lemma frames_per_tick_witness :
  exists m, outputs (snd (Scalar.mixer_process (scalar_conference (repeat 0 80) three_talkers)
                            three_talkers)) 3 = Some [m] /\ length (payload m) = 160%nat.
Proof.
  destruct (frames_per_tick (scalar_conference (repeat 0 80) three_talkers) three_talkers
              ltac:(vm_compute; reflexivity)) as [H1 _].
  destruct (H1 ltac:(vm_compute; reflexivity) 3%nat ltac:(unfold MIXER_MAX_CHANNELS; lia)
              ltac:(vm_compute; reflexivity)) as (m & Hm & Hl).
  exists m. split; [exact Hm|exact Hl].
Defined.

(** One connected input that has not sent anything yet, and one output. *)
Definition idle_line : Filter :=
  mk_filter (pins_of [(0%nat, [])]) (pins_of [(0%nat, [])]) 0 10 0.

(** C4: on the first tick of an idle line no pin counts as active ([N = 0]),
    and the connected, enabled output 0 receives no frame at all. *)
Lemma idle_tick_no_frame :
  let s := scalar_conference (repeat 0 80) idle_line in
  active_count idle_line (Scalar.channels s) = 0 /\
  out_ready (outputs idle_line) (Scalar.channels s) 0 = true /\
  outputs (snd (Scalar.mixer_process s idle_line)) 0 = Some [].
Proof. vm_compute. split; [reflexivity|split; reflexivity]. Qed.

(** ** C3: a single talker in conference mode *)

(** C3 (corrected): on a scalar tick in conference mode where exactly one
    pin [ai] is counted active ([single_output] as [has_single_output]
    computes it), the contributor's own output receives nothing (its queue
    is left as it was: no frame, silent or otherwise), while every other
    connected, enabled output receives the frames queued on pin [ai],
    verbatim; the input queue of [ai] is flushed. *)
Theorem single_talker_conference (s : Scalar.MixerState) (f : Filter)
    (Hsingle : Scalar.single_output s = has_single_output f (Scalar.channels s))
    (Hconf : Scalar.conf_mode s <> 0)
    (Hone : active_count f (Scalar.channels s) = 1) :
  exists ai, (ai < MIXER_MAX_CHANNELS)%nat /\ pin_active f (Scalar.channels s) ai = true /\
  let f' := snd (Scalar.mixer_process s f) in
  outputs f' ai = outputs f ai /\
  inputs f' ai = Some [] /\
  (forall j, j <> ai -> (j < MIXER_MAX_CHANNELS)%nat ->
     out_ready (outputs f) (Scalar.channels s) j = true ->
     outputs f' j = Some (queue_of (outputs f j) ++ queue_of (inputs f ai))) /\
  (forall j, out_ready (outputs f) (Scalar.channels s) j = false -> outputs f' j = outputs f j).
Proof.
  destruct (bypass_one_outputs f (Scalar.channels s) (Scalar.bypass_mode s) (Scalar.single_output s)
              (Scalar.conf_mode s) (fun H => eq_trans (eq_sym Hsingle) H) Hone)
    as (ai & Hai & Ha & B).
  exists ai. split; [exact Hai|split; [exact Ha|]].
  destruct (mixer_check_bypass _ _ _ _ _) as [[[byp c'] bm'] f1] eqn:E.
  destruct B as (-> & _ & _ & Hi & Ho).
  rewrite (scalar_process_bypassed s f _ _ _ E). cbn zeta. cbn [snd].
  assert (Ho' : forall j, outputs f1 j =
    if (j <? MIXER_MAX_CHANNELS)%nat && (out_ready (outputs f) (Scalar.channels s) j &&
                                         negb (Z.of_nat ai =? Z.of_nat j))
    then Some (queue_of (outputs f j) ++ queue_of (inputs f ai)) else outputs f j).
  { intros j. rewrite Ho. unfold eligible.
    rewrite (proj2 (Z.eqb_neq _ _) Hconf), orb_false_r. reflexivity. }
  clear Ho. rename Ho' into Ho.
  split; [|split; [|split]].
  - rewrite Ho, Z.eqb_refl, !andb_false_r. reflexivity.
  - rewrite Hi, upd_eq. reflexivity.
  - intros j Hj Hjm Hr.
    rewrite Ho, (proj2 (Nat.ltb_lt _ _) Hjm), Hr.
    rewrite (proj2 (Z.eqb_neq _ _)) by lia. reflexivity.
  - intros j Hr. rewrite Ho, Hr, andb_false_r. cbn [andb].
    destruct (j <? MIXER_MAX_CHANNELS)%nat; reflexivity.
Qed.

(** One talker on pin 0 with one frame; outputs on pins 0 and 1. *)
Definition one_talker : Filter :=
  mk_filter (pins_of [(0%nat, [tick_frame 100 [1000; -1000]])])
            (pins_of [(0%nat, []); (1%nat, [])]) 0 10 0.

(** C3, at one talker: pin 0 is the only active pin; the talker's own
    output 0 stays empty while output 1 gets the talker's frame itself. *)
Lemma single_talker_conference_witness :
  let s := scalar_conference (repeat 0 80) one_talker in
  let f' := snd (Scalar.mixer_process s one_talker) in
  outputs f' 0 = Some [] /\ outputs f' 1 = Some [tick_frame 100 [1000; -1000]].
Proof.
  destruct (single_talker_conference (scalar_conference (repeat 0 80) one_talker) one_talker
              ltac:(vm_compute; reflexivity) ltac:(vm_compute; discriminate)
              ltac:(vm_compute; reflexivity)) as (ai & Hai & Ha & H0 & _ & H1 & _).
  assert (Eai : ai = 0%nat).
  { (* only pin 0 is connected *)
    destruct ai as [|ai]; [reflexivity|].
    unfold pin_active in Ha. cbn [inputs one_talker pins_of fst Nat.eqb] in Ha. discriminate Ha. }
  subst ai. cbv zeta. split; [exact H0|].
  rewrite (H1 1%nat) by (vm_compute; reflexivity || lia). reflexivity.
Defined.

(** C3: the talker's own output receives no frame, in particular not a
    frame of silence. *)
Lemma single_talker_no_silence :
  let s := scalar_conference (repeat 0 80) one_talker in
  let f' := snd (Scalar.mixer_process s one_talker) in
  output_samples (outputs f' 0) = Some [] /\
  output_samples (outputs f' 0) <> Some [repeat 0 80].
Proof. vm_compute. split; [reflexivity|congruence]. Qed.

(** ** C6: when flow control runs *)

Lemma active_count_nonneg f chans : 0 <= active_count f chans.
Proof.
  pose proof (bypass_scan_spec f chans) as S. unfold active_count.
  destruct (bypass_scan f chans) as [[c n] a]. destruct S as (_ & -> & _). cbn [fst snd]. lia.
Qed.

(** The channels after a vectorized tick that reaches the summation. *)
Lemma avx2_tick_channels a f :
  1 < active_count f (Avx2.channels a) ->
  let chb := after_scan f (Avx2.channels a) in
  let nw := Z.quot (Avx2.bytespertick a) 2 in
  forall j, Avx2.channels (fst (Avx2.mixer_process a f)) j =
     if in_dec Nat.eq_dec j (seq 0 MIXER_MAX_CHANNELS)
     then match inputs f j with
          | Some q => avx2_cp nw (Avx2.skip_threshold a) (ticker_time f) (chb j) q
          | None => chb j end
     else chb j.
Proof.
  intros Hc chb nw j. unfold Avx2.mixer_process.
  rewrite (check_bypass_full _ _ _ _ _ Hc). cbv beta iota zeta.
  unfold Avx2.mix_in.
  cbn [Avx2.bytespertick Avx2.skip_threshold Avx2.set_bypass_mode Avx2.set_channels].
  rewrite (fold_left_ext_in _ (in_step (avx2_cp nw (Avx2.skip_threshold a) (ticker_time f))
             (avx2_sp nw))) by (intros; apply avx2_mix_in_step_eq).
  pose proof (in_step_fold (avx2_cp nw (Avx2.skip_threshold a) (ticker_time f)) (avx2_sp nw)
             _ (seq_NoDup MIXER_MAX_CHANNELS 0) (fst (fst (bypass_scan f (Avx2.channels a))))
             (repeat 0 (Z.to_nat nw)) (inputs f)) as H.
  destruct (fold_left _ _ _) as [[chans2 sum2] ins2].
  destruct H as (Hc2 & _ & _).
  cbn [fst Avx2.channels Avx2.set_sum Avx2.set_channels].
  rewrite Hc2. subst chb. rewrite !scan_channels. reflexivity.
Qed.

Lemma scalar_tick_channels s f :
  1 < active_count f (Scalar.channels s) ->
  let chb := after_scan f (Scalar.channels s) in
  forall j, Scalar.channels (fst (Scalar.mixer_process s f)) j =
     if in_dec Nat.eq_dec j (seq 0 MIXER_MAX_CHANNELS)
     then match inputs f j with
          | Some q => scalar_cp (Scalar.samplespertick s) (Scalar.skip_threshold s) (ticker_time f)
                        (chb j) q
          | None => chb j end
     else chb j.
Proof.
  intros Hc chb j. pose proof (scalar_full_tick s f Hc) as T. cbv zeta in T.
  destruct (Scalar.mixer_process s f) as [s' f']. destruct T as (Hch & _). exact (Hch j).
Qed.

(** A tick settled by the bypass check leaves every channel as the scan
    left it. *)
Lemma bypassed_channels f chans bm single conf :
  active_count f chans <= 1 ->
  exists bm' f1, mixer_check_bypass f chans bm single conf =
                 (true, fst (fst (bypass_scan f chans)), bm', f1).
Proof.
  intros H. pose proof (active_count_nonneg f chans).
  destruct (Z.eq_dec (active_count f chans) 0) as [E|E].
  - rewrite (check_bypass_none _ _ _ _ _ E). eexists; eexists; reflexivity.
  - destruct (check_bypass_one f chans bm single conf ltac:(lia)) as (ai & _ & _ & ->).
    eexists; eexists; reflexivity.
Qed.

Lemma scan_flow_fields f chans j :
  let c := fst (fst (bypass_scan f chans)) j in
  bufferizer c = bufferizer (chans j) /\ min_fullness c = min_fullness (chans j) /\
  last_flow_control c = last_flow_control (chans j).
Proof.
  cbv zeta. rewrite scan_channels.
  destruct (after_scan_fields f chans j) as (-> & _ & -> & -> & _). repeat split.
Qed.

(** C6 (corrected): flow control runs once per tick for every connected
    input, right after that channel's tick block was read, only on ticks
    that reach the summation (more than one pin counted active), in both
    strategies.  A tick that the bypass check settles (at most one active
    pin: bypass or nothing to do) reads no channel and runs no flow
    control: bufferizer, running minimum and window start of every channel
    stay as they were. *)
Theorem flow_control_once_per_tick :
  (forall s f,
   let chb := after_scan f (Scalar.channels s) in
   let s' := fst (Scalar.mixer_process s f) in
   (1 < active_count f (Scalar.channels s) ->
      forall j q, (j < MIXER_MAX_CHANNELS)%nat -> inputs f j = Some q ->
      Scalar.channels s' j =
        snd (channel_flow_control (Scalar.channel_drain (Scalar.samplespertick s) (chb j) q)
               (Scalar.skip_threshold s) (ticker_time f))) /\
   (active_count f (Scalar.channels s) <= 1 -> forall j,
      bufferizer (Scalar.channels s' j) = bufferizer (Scalar.channels s j) /\
      min_fullness (Scalar.channels s' j) = min_fullness (Scalar.channels s j) /\
      last_flow_control (Scalar.channels s' j) = last_flow_control (Scalar.channels s j))) /\
  (forall a f,
   let chb := after_scan f (Avx2.channels a) in
   let a' := fst (Avx2.mixer_process a f) in
   (1 < active_count f (Avx2.channels a) ->
      forall j q, (j < MIXER_MAX_CHANNELS)%nat -> inputs f j = Some q -> forall sum,
      Avx2.channels a' j =
        snd (channel_flow_control
               (fst (Avx2.channel_process_in (chb j) q sum (Z.quot (Avx2.bytespertick a) 2)))
               (Avx2.skip_threshold a) (ticker_time f))) /\
   (active_count f (Avx2.channels a) <= 1 -> forall j,
      bufferizer (Avx2.channels a' j) = bufferizer (Avx2.channels a j) /\
      min_fullness (Avx2.channels a' j) = min_fullness (Avx2.channels a j) /\
      last_flow_control (Avx2.channels a' j) = last_flow_control (Avx2.channels a j))).
Proof.
  split; intros s f chb s'; split.
  - intros Hc j q Hj Hq. subst s'. rewrite (scalar_tick_channels s f Hc).
    destruct (in_dec _ _ _) as [_|Hn]; [|exfalso; apply Hn, in_channels, Hj].
    rewrite Hq. reflexivity.
  - intros Hc j. subst s'.
    destruct (bypassed_channels f (Scalar.channels s) (Scalar.bypass_mode s)
                (Scalar.single_output s) (Scalar.conf_mode s) Hc) as (bm' & f1 & E).
    rewrite (scalar_process_bypassed s f _ _ _ E). cbn [fst Scalar.channels Scalar.set_bypass_mode
                                                        Scalar.set_channels].
    apply scan_flow_fields.
  - intros Hc j q Hj Hq sum. subst s'. rewrite (avx2_tick_channels s f Hc).
    destruct (in_dec _ _ _) as [_|Hn]; [|exfalso; apply Hn, in_channels, Hj].
    rewrite Hq. unfold avx2_cp. rewrite (avx2_process_in_chan _ _ [] sum). reflexivity.
  - intros Hc j. subst s'.
    destruct (bypassed_channels f (Avx2.channels s) (Avx2.bypass_mode s)
                (Avx2.single_output s) (Avx2.conf_mode s) Hc) as (bm' & f1 & E).
    rewrite (avx2_process_bypassed s f _ _ _ E). cbn [fst Avx2.channels Avx2.set_bypass_mode
                                                      Avx2.set_channels].
    apply scan_flow_fields.
Qed.

(** C6: the single talker's tick is a bypass tick: channel 0 is neither read
    (the frame went to output 1, its bufferizer is still empty) nor flow
    controlled (the window start is still the reset sentinel, which a flow
    control call at time 0 would have replaced by 0). *)
Lemma bypass_tick_skips_flow_control :
  let s := scalar_conference (repeat 0 80) one_talker in
  let c := Scalar.channels (fst (Scalar.mixer_process s one_talker)) 0 in
  bufferizer c = [] /\ last_flow_control c = U64_MAX /\
  last_flow_control (snd (channel_flow_control (Scalar.channels s 0) (Scalar.skip_threshold s)
                            (ticker_time one_talker))) = 0.
Proof. vm_compute. split; [reflexivity|split; reflexivity]. Qed.

(** ** C10: an idle pin counts as active *)

(** The scan on a connected pin whose queue is empty. *)
Lemma after_scan_idle f chans i :
  (i < MIXER_MAX_CHANNELS)%nat -> inputs f i = Some [] ->
  last_activity (after_scan f chans i) =
    (if last_activity (chans i) =? U64_MAX then ticker_time f else last_activity (chans i)) /\
  pin_active f chans i =
    negb (last_activity (chans i) =? U64_MAX) &&
    (u64 (ticker_time f - last_activity (chans i)) <? BYPASS_MODE_TIMEOUT).
Proof.
  intros Hi Hq. unfold after_scan, pin_after, pin_active.
  destruct (in_dec _ _ _) as [_|Hn]; [|exfalso; apply Hn, in_channels, Hi].
  rewrite Hq. unfold bypass_pin. cbn [ms_queue_empty negb].
  destruct (last_activity (chans i) =? U64_MAX); [split; reflexivity|].
  destruct (u64 _ <? _); split; reflexivity.
Qed.

(** Past the scan, a tick leaves the activity stamps alone. *)
Lemma scalar_tick_activity s f j :
  last_activity (Scalar.channels (fst (Scalar.mixer_process s f)) j) =
  last_activity (after_scan f (Scalar.channels s) j).
Proof.
  destruct (Z_lt_le_dec 1 (active_count f (Scalar.channels s))) as [Hc|Hc].
  - rewrite (scalar_tick_channels s f Hc).
    destruct (in_dec _ _ _); [destruct (inputs f j) as [q|]|]; try reflexivity.
    destruct (scalar_cp_fields (Scalar.samplespertick s) (Scalar.skip_threshold s) (ticker_time f)
                (after_scan f (Scalar.channels s) j) q) as (_ & _ & _ & _ & ->).
    reflexivity.
  - destruct (bypassed_channels f (Scalar.channels s) (Scalar.bypass_mode s)
                (Scalar.single_output s) (Scalar.conf_mode s) Hc) as (bm' & f1 & E).
    rewrite (scalar_process_bypassed s f _ _ _ E). apply (f_equal last_activity).
    apply scan_channels.
Qed.

Lemma avx2_tick_activity a f j :
  last_activity (Avx2.channels (fst (Avx2.mixer_process a f)) j) =
  last_activity (after_scan f (Avx2.channels a) j).
Proof.
  destruct (Z_lt_le_dec 1 (active_count f (Avx2.channels a))) as [Hc|Hc].
  - rewrite (avx2_tick_channels a f Hc).
    destruct (in_dec _ _ _); [destruct (inputs f j) as [q|]|]; try reflexivity.
    unfold avx2_cp.
    destruct (flow_control_fields (fst (Avx2.channel_process_in (after_scan f (Avx2.channels a) j) q []
                (Z.quot (Avx2.bytespertick a) 2))) (Avx2.skip_threshold a) (ticker_time f))
      as (_ & -> & _).
    apply process_in_fields.
  - destruct (bypassed_channels f (Avx2.channels a) (Avx2.bypass_mode a)
                (Avx2.single_output a) (Avx2.conf_mode a) Hc) as (bm' & f1 & E).
    rewrite (avx2_process_bypassed a f _ _ _ E). apply (f_equal last_activity).
    apply scan_channels.
Qed.

(** Over ticks where pin [i] stays connected and empty, a stamp other than
    the sentinel never moves. *)
Lemma idle_activity_kept {St} (chans_of : St -> nat -> Channel) (tick : St -> Filter -> St)
    (Htick : forall s f j, last_activity (chans_of (tick s f) j) =
                           last_activity (after_scan f (chans_of s) j))
    (i : nat) (t0 : Z) :
  (i < MIXER_MAX_CHANNELS)%nat -> t0 <> U64_MAX ->
  forall fs s, (forall g, In g fs -> inputs g i = Some []) ->
  last_activity (chans_of s i) = t0 ->
  last_activity (chans_of (fold_left tick fs s) i) = t0.
Proof.
  intros Hi Ht0. induction fs as [|g fs IH]; intros s Hq Hs; [exact Hs|].
  cbn [fold_left]. apply IH; [intros; apply Hq; right; assumption|].
  rewrite Htick. destruct (after_scan_idle g (chans_of s) i Hi (Hq g (or_introl eq_refl)))
    as [-> _].
  rewrite Hs, (proj2 (Z.eqb_neq _ _) Ht0). reflexivity.
Qed.

(** The first tick seeds the stamp, later ticks within the timeout count
    the pin as active. *)
Lemma idle_pin_run {St} (chans_of : St -> nat -> Channel) (tick : St -> Filter -> St)
    (Htick : forall s f j, last_activity (chans_of (tick s f) j) =
                           last_activity (after_scan f (chans_of s) j))
    (i : nat) (s0 : St) (f0 f : Filter) (fs : list Filter) :
  (i < MIXER_MAX_CHANNELS)%nat -> last_activity (chans_of s0 i) = U64_MAX ->
  inputs f0 i = Some [] -> ticker_time f0 <> U64_MAX ->
  (forall g, In g fs -> inputs g i = Some []) -> inputs f i = Some [] ->
  pin_active f0 (chans_of s0) i = false /\
  last_activity (chans_of (tick s0 f0) i) = ticker_time f0 /\
  (u64 (ticker_time f - ticker_time f0) < BYPASS_MODE_TIMEOUT ->
     pin_active f (chans_of (fold_left tick fs (tick s0 f0))) i = true).
Proof.
  intros Hi Hp Hq0 Ht0 Hqs Hq.
  destruct (after_scan_idle f0 (chans_of s0) i Hi Hq0) as [A0 P0].
  rewrite Hp, Z.eqb_refl in A0, P0.
  assert (H1 : last_activity (chans_of (tick s0 f0) i) = ticker_time f0)
    by (rewrite Htick; exact A0).
  split; [exact P0|split; [exact H1|]].
  intros Hw.
  pose proof (idle_activity_kept chans_of tick Htick i _ Hi Ht0 fs _ Hqs H1) as Hk.
  destruct (after_scan_idle f (chans_of (fold_left tick fs (tick s0 f0))) i Hi Hq) as [_ ->].
  rewrite Hk, (proj2 (Z.eqb_neq _ _) Ht0). cbn [negb andb].
  apply Z.ltb_lt. exact Hw.
Qed.

(** C10: take either mixer right after [mixer_preprocess] and a pin [i]
    whose input is connected and empty on every tick.  The first tick (at a
    time [t0] other than the sentinel) does not count the pin as active and
    stamps its [last_activity] with [t0]; on any later tick whose time is
    less than [BYPASS_MODE_TIMEOUT] (1000) after [t0] (in [uint64_t]
    arithmetic), the bypass detector counts the pin as active, though it
    never delivered a byte. *)
Theorem idle_pin_counts_active (i : nat) (junk : nat -> list Z) (s : Scalar.MixerState)
    (a : Avx2.MixerState) (fp f0 f : Filter) (fs : list Filter)
    (Hi : (i < MIXER_MAX_CHANNELS)%nat)
    (Hq0 : inputs f0 i = Some [])
    (Ht0 : ticker_time f0 <> U64_MAX)
    (Hqs : forall g, In g fs -> inputs g i = Some [])
    (Hq : inputs f i = Some []) :
  let t0 := ticker_time f0 in
  let s0 := Scalar.mixer_preprocess junk s fp in
  let a0 := Avx2.mixer_preprocess junk a fp in
  (pin_active f0 (Scalar.channels s0) i = false /\
   last_activity (Scalar.channels (fst (Scalar.mixer_process s0 f0)) i) = t0 /\
   (u64 (ticker_time f - t0) < BYPASS_MODE_TIMEOUT ->
      pin_active f (Scalar.channels (Scalar.run (fst (Scalar.mixer_process s0 f0)) fs)) i = true)) /\
  (pin_active f0 (Avx2.channels a0) i = false /\
   last_activity (Avx2.channels (fst (Avx2.mixer_process a0 f0)) i) = t0 /\
   (u64 (ticker_time f - t0) < BYPASS_MODE_TIMEOUT ->
      pin_active f (Avx2.channels (Avx2.run (fst (Avx2.mixer_process a0 f0)) fs)) i = true)).
Proof.
  intros t0 s0 a0. split.
  - exact (idle_pin_run Scalar.channels (fun s f => fst (Scalar.mixer_process s f))
             scalar_tick_activity i s0 f0 f fs Hi eq_refl Hq0 Ht0 Hqs Hq).
  - exact (idle_pin_run Avx2.channels (fun s f => fst (Avx2.mixer_process s f))
             avx2_tick_activity i a0 f0 f fs Hi eq_refl Hq0 Ht0 Hqs Hq).
Qed.

(** The idle line ticked again 10 ms later. *)
Definition idle_line_at (t : Z) : Filter :=
  mk_filter (pins_of [(0%nat, [])]) (pins_of [(0%nat, [])]) t 10 0.

(** C10, at the idle line: ticks at 0, 10 and 20 ms; on the third tick pin
    0, which never sent anything, counts as active, and being the only one
    it is the pin the bypass forwards from. *)
Lemma idle_pin_counts_active_witness :
  let s1 := fst (Scalar.mixer_process (scalar_conference (repeat 0 80) idle_line) idle_line) in
  pin_active (idle_line_at 20) (Scalar.channels (Scalar.run s1 [idle_line_at 10])) 0 = true /\
  active_count (idle_line_at 20) (Scalar.channels (Scalar.run s1 [idle_line_at 10])) = 1.
Proof.
  destruct (idle_pin_counts_active 0 (fun _ => repeat 0 80) Scalar.mixer_init Avx2.mixer_init
              idle_line idle_line (idle_line_at 20) [idle_line_at 10]
              ltac:(unfold MIXER_MAX_CHANNELS; lia) eq_refl ltac:(vm_compute; discriminate)
              ltac:(intros g [<-|[]]; reflexivity) eq_refl) as [(_ & _ & H) _].
  split.
  - apply H. vm_compute. reflexivity.
  - vm_compute. reflexivity.
Defined.

(** ** C2: the two strategies on the same input *)

(** C2 (the strategies disagree): both mixers set to 8000 Hz and conference
    mode and prepared for the three talkers, their contribution buffers
    holding what [posix_memalign] returned (here every sample 1).  On the
    first tick the listener on pin 3, whose input is not connected, gets
    [saturate(sum)] = [290, -15, 0, ...] from the scalar mixer, which
    subtracts nothing from a channel that had no input, but
    [saturate(sum - buffer)] = [289, -16, -1, ...] from the vectorized one,
    which subtracts the never written buffer of every active channel.  With
    a zeroed buffer the two agree. *)
Theorem conference_listener_divergence :
  let f := three_talkers in
  let scalar_out junk := output_samples (outputs (snd (Scalar.mixer_process
                            (scalar_conference junk f) f)) 3) in
  let avx2_out junk := output_samples (outputs (snd (Avx2.mixer_process
                          (avx2_conference junk f) f)) 3) in
  scalar_out (repeat 1 80) = Some [pad_tick [290; -15]] /\
  avx2_out (repeat 1 80) = Some [map (fun x => x - 1) (pad_tick [290; -15])] /\
  scalar_out (repeat 1 80) <> avx2_out (repeat 1 80) /\
  scalar_out (repeat 0 80) = avx2_out (repeat 0 80).
Proof. vm_compute. split; [reflexivity|split; [reflexivity|split; [congruence|reflexivity]]]. Qed.

(** ** Further properties of the code *)

Lemma nth_map_seq (g : nat -> Z) (L k : nat) :
  nth k (map g (seq 0 L)) 0 = if (k <? L)%nat then g k else 0.
Proof.
  destruct (k <? L)%nat eqn:E.
  - apply Nat.ltb_lt in E.
    rewrite nth_indep with (d' := g 0%nat) by (rewrite length_map, length_seq; lia).
    rewrite map_nth, seq_nth by lia. reflexivity.
  - apply Nat.ltb_ge in E. apply nth_overflow. rewrite length_map, length_seq. lia.
Qed.

Lemma accumulate_length sum inp n : length (accumulate sum inp n) = length sum.
Proof. unfold accumulate. rewrite length_map, length_seq. reflexivity. Qed.

Lemma nth_accumulate sum inp n k :
  nth k (accumulate sum inp n) 0 =
  if (k <? length sum)%nat
  then (if (k <? n)%nat then nth k sum 0 + nth k inp 0 else nth k sum 0) else 0.
Proof. unfold accumulate. apply nth_map_seq. Qed.

Lemma saturate_agrees x : saturate x = saturate_sample x.
Proof.
  unfold saturate, saturate_sample.
  destruct (x >? 32767) eqn:E1; [rewrite to_short_small; lia|].
  destruct (x <? -32767) eqn:E2; [rewrite to_short_small; lia|].
  reflexivity.
Qed.

(** The accumulation loop ([accumulate], both files) adds one channel's
    samples into the sum element-wise, so the order in which channels are
    accumulated does not change the sum, and the sum keeps its length. *)
Theorem accumulate_order_independent (sum a b : list Z) (n : nat) :
  accumulate (accumulate sum a n) b n = accumulate (accumulate sum b n) a n /\
  length (accumulate sum a n) = length sum.
Proof.
  split; [|apply accumulate_length].
  apply nth_ext with (d := 0) (d' := 0).
  - rewrite !accumulate_length. reflexivity.
  - intros k Hk. rewrite !nth_accumulate, !accumulate_length.
    destruct (k <? length sum)%nat, (k <? n)%nat; lia.
Qed.

(** Subtracting a channel's own contribution undoes its accumulation:
    in audiomixer2.c, [subtract_and_copy_to_out] of a sum that received
    [inp] gives what [copy_to_out] gives for the sum without it (when the
    sum is long enough); in audiomixer_avx2.c, [channel_process_out] of an
    active channel on a sum that received its input gives [make_output] of
    the sum without it. *)
Theorem own_contribution_cancels :
  (forall (sum inp : list Z) (n : nat), (n <= length sum)%nat ->
     Scalar.subtract_and_copy_to_out (accumulate sum inp n) inp n = Scalar.copy_to_out sum n) /\
  (forall (chan : Channel) (sum : list Z) (nw : Z), active chan = true ->
     (Avx2.lanes nw <= length sum)%nat ->
     Avx2.channel_process_out chan (accumulate sum (input chan) (Avx2.lanes nw)) nw =
     Avx2.make_output sum nw).
Proof.
  split.
  - intros sum inp n Hn. unfold Scalar.subtract_and_copy_to_out, Scalar.copy_to_out.
    apply map_ext_in. intros k Hk. apply in_seq in Hk.
    rewrite nth_accumulate.
    rewrite (proj2 (Nat.ltb_lt k (length sum))) by lia.
    rewrite (proj2 (Nat.ltb_lt k n)) by lia. f_equal. lia.
  - intros chan sum nw Ha Hn. unfold Avx2.channel_process_out, Avx2.make_output. rewrite Ha.
    apply map_ext_in. intros k Hk. apply in_seq in Hk.
    rewrite nth_accumulate.
    rewrite (proj2 (Nat.ltb_lt k (length sum))) by lia.
    rewrite (proj2 (Nat.ltb_lt k (Avx2.lanes nw))) by lia. f_equal. lia.
Qed.

Lemma own_contribution_cancels_witness :
  Scalar.subtract_and_copy_to_out (accumulate [1; 2] [5; 7] 2) [5; 7] 2 =
  Scalar.copy_to_out [1; 2] 2 /\
  Avx2.channel_process_out (mk_chan [] (repeat 3 8) 0 0 0 true true false)
    (accumulate (repeat 40000 8) (repeat 3 8) (Avx2.lanes 8)) 8 =
  Avx2.make_output (repeat 40000 8) 8.
Proof.
  split.
  - apply (proj1 own_contribution_cancels). cbn. lia.
  - apply (proj2 own_contribution_cancels (mk_chan [] (repeat 3 8) 0 0 0 true true false)
             (repeat 40000 8) 8); [reflexivity|vm_compute; lia].
Defined.

(** [channel_flow_control] never skips more than the bufferizer holds,
    the bufferizer loses exactly the skipped bytes, and when it skips at
    all it leaves at least half the threshold (for a non-negative
    threshold). *)
Theorem flow_control_trim_bounds (chan : Channel) (threshold time : Z)
    (Hthr : 0 <= threshold) :
  let '(skip, c') := channel_flow_control chan threshold time in
  0 <= skip <= Z.of_nat (length (bufferizer chan)) /\
  Z.of_nat (length (bufferizer c')) = Z.of_nat (length (bufferizer chan)) - skip /\
  (0 < skip -> Z.quot threshold 2 <= Z.of_nat (length (bufferizer c'))).
Proof.
  unfold channel_flow_control, ms_bufferizer_get_avail, ms_bufferizer_skip_bytes.
  set (size := Z.of_nat (length (bufferizer chan))).
  assert (Hsz : 0 <= size) by lia.
  set (m := if (min_fullness chan =? -1) || (size <? min_fullness chan)
            then size else min_fullness chan).
  assert (Hmle : m <= size).
  { subst m. destruct ((min_fullness chan =? -1) || (size <? min_fullness chan)) eqn:E; [lia|].
    apply orb_false_iff in E. destruct E as [_ E]. apply Z.ltb_ge in E. lia. }
  assert (Hq : 0 <= Z.quot threshold 2 <= threshold - Z.quot threshold 2).
  { pose proof (Z.quot_pos threshold 2 Hthr ltac:(lia)).
    pose proof (Z.mul_quot_le threshold 2 Hthr ltac:(lia)). lia. }
  destruct (last_flow_control chan =? U64_MAX); [cbn; lia|].
  destruct (u64 (time - last_flow_control chan) >=? 5000); [destruct (m >=? threshold) eqn:EM|];
    cbv beta iota; cbn [bufferizer set_flow set_bufferizer]; try lia.
  apply Z.geb_le in EM. rewrite length_skipn. fold size. lia.
Qed.

Lemma flow_control_trim_bounds_witness :
  let '(skip, c') := channel_flow_control (mk_chan (repeat 0 100) [] 80 0 0 true true false) 64 5000 in
  0 <= skip <= 100 /\ Z.of_nat (length (bufferizer c')) = 100 - skip /\
  (0 < skip -> 32 <= Z.of_nat (length (bufferizer c'))).
Proof.
  exact (flow_control_trim_bounds (mk_chan (repeat 0 100) [] 80 0 0 true true false) 64 5000
           ltac:(lia)).
Defined.

(** ** What a tick does to the pins *)

Lemma out_grows_refl o : out_grows o o.
Proof. destruct o as [q|]; cbn; [exists []; rewrite app_nil_r|]; reflexivity. Qed.

Lemma out_grows_trans o1 o2 o3 : out_grows o1 o2 -> out_grows o2 o3 -> out_grows o1 o3.
Proof.
  destruct o1 as [q1|]; cbn; intros H1 H2.
  - destruct H1 as [l1 ->]. cbn in H2. destruct H2 as [l2 ->].
    exists (l1 ++ l2). rewrite app_assoc. reflexivity.
  - subst o2. exact H2.
Qed.

Lemma io_ok_refl g : io_ok g g.
Proof. split; [reflexivity|intros; apply out_grows_refl]. Qed.

Lemma io_ok_trans g1 g2 g3 : io_ok g1 g2 -> io_ok g2 g3 -> io_ok g1 g3.
Proof.
  intros [I1 O1] [I2 O2]. split; [congruence|].
  intros j. eapply out_grows_trans; [apply O1|apply O2].
Qed.

Lemma put_output_io f i m : io_ok f (put_output f i m).
Proof.
  unfold put_output. destruct (outputs f i) as [q|] eqn:E; [|apply io_ok_refl].
  split; [reflexivity|]. intros j. cbn [outputs set_outputs]. unfold upd.
  destruct (j =? i)%nat eqn:Eji; [|apply out_grows_refl].
  apply Nat.eqb_eq in Eji. subst j. rewrite E. exists [m]. reflexivity.
Qed.

Lemma alloc_put_io f n i m : io_ok f (put_output (set_next_db f n) i m).
Proof.
  eapply io_ok_trans; [|apply put_output_io].
  split; [reflexivity|intros; apply out_grows_refl].
Qed.

Lemma mix_out_loop_io idx n conf chans sum :
  forall cached g, io_ok g (Scalar.mix_out_loop idx n conf chans sum cached g).
Proof.
  induction idx as [|i rest IH]; intros cached g; cbn [Scalar.mix_out_loop]; [apply io_ok_refl|].
  destruct (outputs g i); [|apply IH].
  destruct (output_enabled (chans i)); [|apply IH].
  destruct (active (chans i) && had_input (chans i) && negb (conf =? 0)).
  - cbn [allocb]. eapply io_ok_trans; [apply alloc_put_io|apply IH].
  - destruct cached as [c|].
    + eapply io_ok_trans; [apply put_output_io|apply IH].
    + cbn [allocb]. eapply io_ok_trans; [apply alloc_put_io|apply IH].
Qed.

Lemma out_loop_generic_io idx nw chans sum :
  forall om g, io_ok g (Avx2.out_loop_generic idx nw chans sum om g).
Proof.
  induction idx as [|i rest IH]; intros om g; cbn [Avx2.out_loop_generic]; [apply io_ok_refl|].
  destruct (outputs g i); [|apply IH].
  destruct (output_enabled (chans i)); [|apply IH].
  destruct om as [m0|].
  - eapply io_ok_trans; [apply put_output_io|apply IH].
  - cbn [allocb]. eapply io_ok_trans; [apply alloc_put_io|apply IH].
Qed.

Lemma out_loop_conf_io idx nw chans sum :
  forall g, io_ok g (Avx2.out_loop_conf idx nw chans sum g).
Proof.
  induction idx as [|i rest IH]; intros g; cbn [Avx2.out_loop_conf]; [apply io_ok_refl|].
  destruct (outputs g i); [|apply IH].
  destruct (output_enabled (chans i)); [|apply IH].
  cbn [allocb]. eapply io_ok_trans; [apply alloc_put_io|apply IH].
Qed.

Lemma dispatch_loop_grows idx single conf chans ai inq :
  forall outs j, out_grows (outs j) (snd (dispatch_loop idx single conf chans ai inq outs) j).
Proof.
  induction idx as [|i rest IH]; intros outs j; cbn [dispatch_loop]; [apply out_grows_refl|].
  destruct (outs i) as [outq|] eqn:Eo; [|apply IH].
  destruct (output_enabled (chans i) && (negb (ai =? Z.of_nat i) || (conf =? 0))); [|apply IH].
  assert (G : forall v, out_grows (outs j) (upd outs i (Some (outq ++ v)) j)).
  { intros v. unfold upd. destruct (j =? i)%nat eqn:Eji; [|apply out_grows_refl].
    apply Nat.eqb_eq in Eji. subst j. rewrite Eo. exists v. reflexivity. }
  destruct single; [apply G|].
  eapply out_grows_trans; [apply G|apply IH].
Qed.

Lemma pin_inactive_empty f chans j :
  pin_active f chans j = false -> inputs f j = drained (inputs f j).
Proof.
  unfold pin_active. destruct (inputs f j) as [q|]; [|reflexivity].
  destruct q as [|m q]; [reflexivity|]. cbn. discriminate.
Qed.

Lemma pin_active_connected f chans j :
  pin_active f chans j = true -> drained (inputs f j) = Some [].
Proof. unfold pin_active. destruct (inputs f j); [reflexivity|discriminate]. Qed.

Lemma seq_dec_ltb {A} (j : nat) (x y : A) :
  (if in_dec Nat.eq_dec j (seq 0 MIXER_MAX_CHANNELS) then x else y) =
  (if (j <? MIXER_MAX_CHANNELS)%nat then x else y).
Proof.
  destruct (in_dec _ _ _) as [H|H]; destruct (j <? MIXER_MAX_CHANNELS)%nat eqn:E; try reflexivity.
  - apply in_seq in H. apply Nat.ltb_ge in E. lia.
  - apply Nat.ltb_lt in E. exfalso. apply H, in_channels, E.
Qed.

(** The three outcomes of the bypass check, as seen from the pins. *)
Lemma check_bypass_shape f chans bm single conf :
  let '(b, ch, bm', f1) := mixer_check_bypass f chans bm single conf in
  (forall j, ch j = after_scan f chans j) /\
  (b = false -> f1 = f /\ bm' = false /\ 1 < active_count f chans) /\
  (b = true -> active_count f chans <= 1 /\
     forall j, inputs f1 j = if (j <? MIXER_MAX_CHANNELS)%nat then drained (inputs f j)
                             else inputs f j) /\
  (forall j, out_grows (outputs f j) (outputs f1 j)).
Proof.
  unfold active_count. pose proof (bypass_scan_spec f chans) as S. unfold mixer_check_bypass.
  destruct (bypass_scan f chans) as [[c n] a]. destruct S as (S1 & S2 & S3). cbn [fst snd].
  assert (Hch : forall j, c j = after_scan f chans j) by (intros j; rewrite S1; reflexivity).
  assert (Hin : forall j, (j < MIXER_MAX_CHANNELS)%nat -> pin_active f chans j = true ->
                In j (filter (pin_active f chans) (seq 0 MIXER_MAX_CHANNELS)))
    by (intros j Hj Ha; apply filter_In; split; [apply in_channels, Hj|exact Ha]).
  destruct (n =? 1) eqn:E1.
  - apply Z.eqb_eq in E1. subst n.
    assert (L : length (filter (pin_active f chans) (seq 0 MIXER_MAX_CHANNELS)) = 1%nat) by lia.
    destruct (length_one _ L) as [k Hk].
    assert (Hk' : In k (filter (pin_active f chans) (seq 0 MIXER_MAX_CHANNELS)))
      by (rewrite Hk; left; reflexivity).
    apply filter_In in Hk'. destruct Hk' as [Hkin Hka]. apply in_seq in Hkin.
    rewrite S3, Hk. cbn [last_of fold_left].
    split; [exact Hch|split; [discriminate|split; [intros _; split; [cbn [length]; lia|]|]]].
    + intros j. unfold mixer_dispatch_output. cbn [inputs set_inputs set_outputs].
      rewrite Nat2Z.id. unfold upd.
      destruct (j =? k)%nat eqn:Ejk.
      * apply Nat.eqb_eq in Ejk. subst j.
        rewrite (proj2 (Nat.ltb_lt k MIXER_MAX_CHANNELS)) by lia.
        symmetry. apply (pin_active_connected f chans k Hka).
      * apply Nat.eqb_neq in Ejk.
        destruct (j <? MIXER_MAX_CHANNELS)%nat eqn:Ej; [|reflexivity].
        apply Nat.ltb_lt in Ej. apply (pin_inactive_empty f chans j).
        destruct (pin_active f chans j) eqn:Ea; [|reflexivity].
        specialize (Hin j Ej Ea). rewrite Hk in Hin. destruct Hin as [->|[]]; congruence.
    + intros j. unfold mixer_dispatch_output. cbn [outputs set_inputs set_outputs].
      apply dispatch_loop_grows.
  - destruct (n >? 1) eqn:E2.
    + apply Z.gtb_lt in E2.
      split; [exact Hch|split; [intros _; split; [reflexivity|split; [reflexivity|lia]]|]].
      split; [discriminate|intros j; apply out_grows_refl].
    + apply Z.eqb_neq in E1. rewrite Z.gtb_ltb, Z.ltb_ge in E2.
      assert (L : length (filter (pin_active f chans) (seq 0 MIXER_MAX_CHANNELS)) = 0%nat) by lia.
      split; [exact Hch|split; [discriminate|split; [intros _; split; [lia|]|]]].
      * intros j. destruct (j <? MIXER_MAX_CHANNELS)%nat eqn:Ej; [|reflexivity].
        apply Nat.ltb_lt in Ej. apply (pin_inactive_empty f chans j).
        destruct (pin_active f chans j) eqn:Ea; [|reflexivity].
        pose proof (filter_length_in _ _ j (in_channels j Ej) Ea). lia.
      * intros j. apply out_grows_refl.
Qed.

Lemma avx2_cp_fields nw thr t c q :
  let c' := avx2_cp nw thr t c q in
  active c' = active c /\ output_enabled c' = output_enabled c /\ last_activity c' = last_activity c.
Proof.
  unfold avx2_cp. cbv zeta.
  destruct (flow_control_fields (fst (Avx2.channel_process_in c q [] nw)) thr t)
    as (_ & F2 & F3 & F4 & _).
  destruct (process_in_fields c q [] nw) as (P1 & P2 & P3 & _).
  rewrite F2, F3, F4, P1, P2, P3. repeat split.
Qed.

(** One scalar tick, from the outside: the pins and the fields it keeps. *)
Lemma scalar_tick_shape s f :
  let '(s', f') := Scalar.mixer_process s f in
  (forall j, inputs f' j = if (j <? MIXER_MAX_CHANNELS)%nat then drained (inputs f j)
                           else inputs f j) /\
  (forall j, out_grows (outputs f j) (outputs f' j)) /\
  (forall j, active (Scalar.channels s' j) = active (Scalar.channels s j) /\
             output_enabled (Scalar.channels s' j) = output_enabled (Scalar.channels s j)) /\
  Scalar.nchannels s' = Scalar.nchannels s /\ Scalar.rate s' = Scalar.rate s /\
  Scalar.samplespertick s' = Scalar.samplespertick s /\
  Scalar.conf_mode s' = Scalar.conf_mode s /\
  Scalar.skip_threshold s' = Scalar.skip_threshold s /\
  Scalar.single_output s' = Scalar.single_output s.
Proof.
  unfold Scalar.mixer_process.
  pose proof (check_bypass_shape f (Scalar.channels s) (Scalar.bypass_mode s)
                (Scalar.single_output s) (Scalar.conf_mode s)) as C.
  destruct (mixer_check_bypass _ _ _ _ _) as [[[b ch] bm] f1].
  destruct C as (C1 & C2 & C3 & C4).
  assert (Hsc : forall j, active (ch j) = active (Scalar.channels s j) /\
                          output_enabled (ch j) = output_enabled (Scalar.channels s j)).
  { intros j. rewrite C1.
    destruct (after_scan_fields f (Scalar.channels s) j) as (_ & _ & _ & _ & -> & -> & _).
    split; reflexivity. }
  destruct b.
  - destruct (C3 eq_refl) as [_ C3'].
    cbn [Scalar.channels Scalar.nchannels Scalar.rate Scalar.samplespertick Scalar.conf_mode
         Scalar.skip_threshold Scalar.single_output Scalar.set_bypass_mode Scalar.set_channels].
    split; [exact C3'|split; [exact C4|split; [exact Hsc|repeat split]]].
  - destruct (C2 eq_refl) as (-> & -> & _). unfold Scalar.mix_in.
    cbn [Scalar.samplespertick Scalar.skip_threshold Scalar.set_bypass_mode Scalar.set_channels].
    rewrite (fold_left_ext_in _ (in_step (scalar_cp (Scalar.samplespertick s) (Scalar.skip_threshold s)
               (ticker_time f)) (scalar_sp (Scalar.samplespertick s))))
      by (intros; apply scalar_mix_in_step_eq).
    pose proof (in_step_fold (scalar_cp (Scalar.samplespertick s) (Scalar.skip_threshold s)
               (ticker_time f)) (scalar_sp (Scalar.samplespertick s)) _ (seq_NoDup MIXER_MAX_CHANNELS 0)
               ch (repeat 0 (Z.to_nat (Scalar.samplespertick s))) (inputs f)) as H.
    destruct (fold_left _ _ _) as [[chans2 sum2] ins2].
    destruct H as (Hc2 & _ & Hi2).
    destruct (mix_out_loop_io (seq 0 MIXER_MAX_CHANNELS) (Z.to_nat (Scalar.samplespertick s))
                (Scalar.conf_mode s) chans2 sum2 None (set_inputs f ins2)) as [IO1 IO2].
    cbn [Scalar.channels Scalar.nchannels Scalar.rate Scalar.samplespertick Scalar.conf_mode
         Scalar.skip_threshold Scalar.single_output Scalar.set_sum Scalar.set_channels
         Scalar.set_bypass_mode].
    split; [|split; [|split; [|repeat split]]].
    + intros j. rewrite IO1. cbn [inputs set_inputs]. rewrite Hi2, seq_dec_ltb. reflexivity.
    + intros j. apply IO2.
    + intros j. rewrite Hc2. destruct (in_dec _ _ _); [|apply Hsc].
      destruct (inputs f j) as [q|]; [|apply Hsc].
      destruct (scalar_cp_fields (Scalar.samplespertick s) (Scalar.skip_threshold s) (ticker_time f)
                  (ch j) q) as (_ & _ & -> & -> & _).
      apply Hsc.
Qed.

Lemma avx2_tick_shape a f :
  let '(a', f') := Avx2.mixer_process a f in
  (forall j, inputs f' j = if (j <? MIXER_MAX_CHANNELS)%nat then drained (inputs f j)
                           else inputs f j) /\
  (forall j, out_grows (outputs f j) (outputs f' j)) /\
  (forall j, active (Avx2.channels a' j) = active (Avx2.channels a j) /\
             output_enabled (Avx2.channels a' j) = output_enabled (Avx2.channels a j)) /\
  Avx2.nchannels a' = Avx2.nchannels a /\ Avx2.rate a' = Avx2.rate a /\
  Avx2.bytespertick a' = Avx2.bytespertick a /\
  Avx2.conf_mode a' = Avx2.conf_mode a /\
  Avx2.skip_threshold a' = Avx2.skip_threshold a /\
  Avx2.single_output a' = Avx2.single_output a.
Proof.
  unfold Avx2.mixer_process. cbv zeta.
  pose proof (check_bypass_shape f (Avx2.channels a) (Avx2.bypass_mode a)
                (Avx2.single_output a) (Avx2.conf_mode a)) as C.
  destruct (mixer_check_bypass _ _ _ _ _) as [[[b ch] bm] f1].
  destruct C as (C1 & C2 & C3 & C4).
  assert (Hsc : forall j, active (ch j) = active (Avx2.channels a j) /\
                          output_enabled (ch j) = output_enabled (Avx2.channels a j)).
  { intros j. rewrite C1.
    destruct (after_scan_fields f (Avx2.channels a) j) as (_ & _ & _ & _ & -> & -> & _).
    split; reflexivity. }
  destruct b.
  - destruct (C3 eq_refl) as [_ C3'].
    cbn [Avx2.channels Avx2.nchannels Avx2.rate Avx2.bytespertick Avx2.conf_mode
         Avx2.skip_threshold Avx2.single_output Avx2.set_bypass_mode Avx2.set_channels].
    split; [exact C3'|split; [exact C4|split; [exact Hsc|repeat split]]].
  - destruct (C2 eq_refl) as (-> & -> & _). unfold Avx2.mix_in.
    set (nw := Z.quot (Avx2.bytespertick a) 2).
    cbn [Avx2.bytespertick Avx2.skip_threshold Avx2.set_bypass_mode Avx2.set_channels].
    rewrite (fold_left_ext_in _ (in_step (avx2_cp nw (Avx2.skip_threshold a) (ticker_time f))
               (avx2_sp nw))) by (intros; apply avx2_mix_in_step_eq).
    pose proof (in_step_fold (avx2_cp nw (Avx2.skip_threshold a) (ticker_time f)) (avx2_sp nw)
               _ (seq_NoDup MIXER_MAX_CHANNELS 0) ch (repeat 0 (Z.to_nat nw)) (inputs f)) as H.
    destruct (fold_left _ _ _) as [[chans2 sum2] ins2].
    destruct H as (Hc2 & _ & Hi2).
    assert (IO : io_ok (set_inputs f ins2)
                   (if Avx2.conf_mode a =? 0
                    then Avx2.out_loop_generic (seq 0 MIXER_MAX_CHANNELS) nw chans2 sum2 None
                           (set_inputs f ins2)
                    else Avx2.out_loop_conf (seq 0 MIXER_MAX_CHANNELS) nw chans2 sum2
                           (set_inputs f ins2)))
      by (destruct (Avx2.conf_mode a =? 0); [apply out_loop_generic_io|apply out_loop_conf_io]).
    destruct IO as [IO1 IO2].
    cbn [Avx2.channels Avx2.nchannels Avx2.rate Avx2.bytespertick Avx2.conf_mode
         Avx2.skip_threshold Avx2.single_output Avx2.set_sum Avx2.set_channels
         Avx2.set_bypass_mode].
    split; [|split; [|split; [|repeat split]]].
    + intros j. rewrite IO1. cbn [inputs set_inputs]. rewrite Hi2, seq_dec_ltb. reflexivity.
    + intros j. apply IO2.
    + intros j. rewrite Hc2. destruct (in_dec _ _ _); [|apply Hsc].
      destruct (inputs f j) as [q|]; [|apply Hsc].
      destruct (avx2_cp_fields nw (Avx2.skip_threshold a) (ticker_time f) (ch j) q) as (-> & -> & _).
      apply Hsc.
Qed.

Lemma has_single_output_io f f' c c' :
  (forall j, out_grows (outputs f j) (outputs f' j)) ->
  (forall j, output_enabled (c j) = output_enabled (c' j)) ->
  has_single_output f' c' = has_single_output f c.
Proof.
  intros Ho He. unfold has_single_output.
  rewrite (filter_ext_in' _ (fun i => match outputs f i with
                                      | Some _ => output_enabled (c i) | None => false end)).
  { reflexivity. }
  intros j _. specialize (Ho j). rewrite He.
  destruct (outputs f j) as [q|]; cbn in Ho; [destruct Ho as [l ->]|rewrite Ho]; reflexivity.
Qed.

(** One tick of [mixer_process], in either strategy, empties every
    connected input queue among the first [MIXER_MAX_CHANNELS] pins and
    touches no other input. *)
Theorem tick_drains_inputs (s : Scalar.MixerState) (a : Avx2.MixerState) (f : Filter) :
  (forall j, inputs (snd (Scalar.mixer_process s f)) j =
             if (j <? MIXER_MAX_CHANNELS)%nat then drained (inputs f j) else inputs f j) /\
  (forall j, inputs (snd (Avx2.mixer_process a f)) j =
             if (j <? MIXER_MAX_CHANNELS)%nat then drained (inputs f j) else inputs f j).
Proof.
  pose proof (scalar_tick_shape s f) as S. pose proof (avx2_tick_shape a f) as A.
  destruct (Scalar.mixer_process s f) as [s' f1]. destruct (Avx2.mixer_process a f) as [a' f2].
  split; [apply (proj1 S)|apply (proj1 A)].
Qed.

(** One tick of [mixer_process], in either strategy, only appends frames
    to output queues: the frames already queued stay in front, and no frame
    is written to an unconnected output pin. *)
Theorem tick_only_appends_outputs (s : Scalar.MixerState) (a : Avx2.MixerState) (f : Filter) :
  (forall j q, outputs f j = Some q ->
     (exists l, outputs (snd (Scalar.mixer_process s f)) j = Some (q ++ l)) /\
     (exists l, outputs (snd (Avx2.mixer_process a f)) j = Some (q ++ l))) /\
  (forall j, outputs f j = None ->
     outputs (snd (Scalar.mixer_process s f)) j = None /\
     outputs (snd (Avx2.mixer_process a f)) j = None).
Proof.
  pose proof (scalar_tick_shape s f) as S. pose proof (avx2_tick_shape a f) as A.
  destruct (Scalar.mixer_process s f) as [s' f1]. destruct (Avx2.mixer_process a f) as [a' f2].
  destruct S as (_ & S & _). destruct A as (_ & A & _). cbn [snd].
  split.
  - intros j q E. specialize (S j). specialize (A j). rewrite E in S, A. split; assumption.
  - intros j E. specialize (S j). specialize (A j). rewrite E in S, A. split; assumption.
Qed.

Lemma fold_inv {St F} (tick : St -> F -> St) (P : St -> Prop) :
  (forall s f, P s -> P (tick s f)) -> forall fs s, P s -> P (fold_left tick fs s).
Proof. intros H fs. induction fs as [|f fs IH]; intros s Hs; cbn [fold_left]; auto. Qed.

Lemma scalar_tick_keeps s f : scalar_keeps s (fst (Scalar.mixer_process s f)).
Proof.
  pose proof (scalar_tick_shape s f) as T.
  destruct (Scalar.mixer_process s f) as [s1 f1].
  destruct T as (_ & _ & T1 & T2 & T3 & T4 & T5 & T6 & T7).
  split; [exact T1|repeat split; assumption].
Qed.

Lemma avx2_tick_keeps a f : avx2_keeps a (fst (Avx2.mixer_process a f)).
Proof.
  pose proof (avx2_tick_shape a f) as T.
  destruct (Avx2.mixer_process a f) as [a1 f1].
  destruct T as (_ & _ & T1 & T2 & T3 & T4 & T5 & T6 & T7).
  split; [exact T1|repeat split; assumption].
Qed.

Lemma scalar_run_keeps s fs : scalar_keeps s (Scalar.run s fs).
Proof.
  unfold Scalar.run.
  apply (fold_inv (fun s f => fst (Scalar.mixer_process s f)) (scalar_keeps s));
    [|split; [intros; split|repeat split]; reflexivity].
  intros x f (H1 & H2 & H3 & H4 & H5 & H6 & H7).
  destruct (scalar_tick_keeps x f) as (K1 & K2 & K3 & K4 & K5 & K6 & K7).
  split; [intros j; destruct (K1 j) as [-> ->]; apply H1|].
  repeat split; congruence.
Qed.

Lemma avx2_run_keeps a fs : avx2_keeps a (Avx2.run a fs).
Proof.
  unfold Avx2.run.
  apply (fold_inv (fun a f => fst (Avx2.mixer_process a f)) (avx2_keeps a));
    [|split; [intros; split|repeat split]; reflexivity].
  intros x f (H1 & H2 & H3 & H4 & H5 & H6 & H7).
  destruct (avx2_tick_keeps x f) as (K1 & K2 & K3 & K4 & K5 & K6 & K7).
  split; [intros j; destruct (K1 j) as [-> ->]; apply H1|].
  repeat split; congruence.
Qed.

(** Processing any sequence of ticks changes neither the per-channel
    [active] and [output_enabled] switches nor the mixer's configuration
    (channel count, rate, tick size, conference mode, skip threshold,
    single-output flag), in either strategy. *)
Theorem ticks_keep_controls (s : Scalar.MixerState) (a : Avx2.MixerState) (fs : list Filter) :
  (forall j, active (Scalar.channels (Scalar.run s fs) j) = active (Scalar.channels s j) /\
     output_enabled (Scalar.channels (Scalar.run s fs) j) = output_enabled (Scalar.channels s j)) /\
  Scalar.nchannels (Scalar.run s fs) = Scalar.nchannels s /\
  Scalar.rate (Scalar.run s fs) = Scalar.rate s /\
  Scalar.samplespertick (Scalar.run s fs) = Scalar.samplespertick s /\
  Scalar.conf_mode (Scalar.run s fs) = Scalar.conf_mode s /\
  Scalar.skip_threshold (Scalar.run s fs) = Scalar.skip_threshold s /\
  Scalar.single_output (Scalar.run s fs) = Scalar.single_output s /\
  (forall j, active (Avx2.channels (Avx2.run a fs) j) = active (Avx2.channels a j) /\
     output_enabled (Avx2.channels (Avx2.run a fs) j) = output_enabled (Avx2.channels a j)) /\
  Avx2.nchannels (Avx2.run a fs) = Avx2.nchannels a /\
  Avx2.rate (Avx2.run a fs) = Avx2.rate a /\
  Avx2.bytespertick (Avx2.run a fs) = Avx2.bytespertick a /\
  Avx2.conf_mode (Avx2.run a fs) = Avx2.conf_mode a /\
  Avx2.skip_threshold (Avx2.run a fs) = Avx2.skip_threshold a /\
  Avx2.single_output (Avx2.run a fs) = Avx2.single_output a.
Proof.
  destruct (scalar_run_keeps s fs) as (S1 & S2 & S3 & S4 & S5 & S6 & S7).
  destruct (avx2_run_keeps a fs) as (A1 & A2 & A3 & A4 & A5 & A6 & A7).
  repeat split; auto; try apply S1; try apply A1.
Qed.

(** The [single_output] flag stays equal to what [has_single_output]
    computes for the filter: [mixer_preprocess] establishes it, and a tick,
    [mixer_enable_output] and [mixer_set_active] keep it, in both
    strategies. *)
Theorem single_output_invariant :
  (forall junk s f, Scalar.single_output (Scalar.mixer_preprocess junk s f) =
                    has_single_output f (Scalar.channels (Scalar.mixer_preprocess junk s f))) /\
  (forall s f, Scalar.single_output s = has_single_output f (Scalar.channels s) ->
     Scalar.single_output (fst (Scalar.mixer_process s f)) =
     has_single_output (snd (Scalar.mixer_process s f)) (Scalar.channels (fst (Scalar.mixer_process s f)))) /\
  (forall f pin en s, Scalar.single_output s = has_single_output f (Scalar.channels s) ->
     let s' := snd (Scalar.mixer_enable_output f pin en s) in
     Scalar.single_output s' = has_single_output f (Scalar.channels s')) /\
  (forall f pin b s, Scalar.single_output s = has_single_output f (Scalar.channels s) ->
     let s' := snd (Scalar.mixer_set_active pin b s) in
     Scalar.single_output s' = has_single_output f (Scalar.channels s')) /\
  (forall junk a f, Avx2.single_output (Avx2.mixer_preprocess junk a f) =
                    has_single_output f (Avx2.channels (Avx2.mixer_preprocess junk a f))) /\
  (forall a f, Avx2.single_output a = has_single_output f (Avx2.channels a) ->
     Avx2.single_output (fst (Avx2.mixer_process a f)) =
     has_single_output (snd (Avx2.mixer_process a f)) (Avx2.channels (fst (Avx2.mixer_process a f)))) /\
  (forall f pin en a, Avx2.single_output a = has_single_output f (Avx2.channels a) ->
     let a' := snd (Avx2.mixer_enable_output f pin en a) in
     Avx2.single_output a' = has_single_output f (Avx2.channels a')) /\
  (forall f pin b a, Avx2.single_output a = has_single_output f (Avx2.channels a) ->
     let a' := snd (Avx2.mixer_set_active pin b a) in
     Avx2.single_output a' = has_single_output f (Avx2.channels a')).
Proof.
  split; [reflexivity|split; [|split; [|split; [|split; [reflexivity|split; [|split]]]]]].
  - intros s f H. pose proof (scalar_tick_shape s f) as T.
    destruct (Scalar.mixer_process s f) as [s' f'].
    destruct T as (_ & To & Tc & _ & _ & _ & _ & _ & Ts). cbn [fst snd].
    rewrite Ts, H. symmetry. apply has_single_output_io; [exact To|].
    intros j. symmetry. apply (proj2 (Tc j)).
  - intros f pin en s H. cbv zeta. unfold Scalar.mixer_enable_output.
    destruct (_ || _); [exact H|reflexivity].
  - intros f pin b s H. cbv zeta. unfold Scalar.mixer_set_active.
    destruct (_ || _); [exact H|]. cbn [snd Scalar.single_output Scalar.channels Scalar.set_channels].
    rewrite H. apply has_single_output_ext. intros j. unfold upd.
    destruct (j =? Z.to_nat pin)%nat eqn:E; [apply Nat.eqb_eq in E; subst j|]; reflexivity.
  - intros a f H. pose proof (avx2_tick_shape a f) as T.
    destruct (Avx2.mixer_process a f) as [a' f'].
    destruct T as (_ & To & Tc & _ & _ & _ & _ & _ & Ts). cbn [fst snd].
    rewrite Ts, H. symmetry. apply has_single_output_io; [exact To|].
    intros j. symmetry. apply (proj2 (Tc j)).
  - intros f pin en a H. cbv zeta. unfold Avx2.mixer_enable_output.
    destruct (_ || _); [exact H|reflexivity].
  - intros f pin b a H. cbv zeta. unfold Avx2.mixer_set_active.
    destruct (_ || _); [exact H|]. cbn [snd Avx2.single_output Avx2.channels Avx2.set_channels].
    rewrite H. apply has_single_output_ext. intros j. unfold upd.
    destruct (j =? Z.to_nat pin)%nat eqn:E; [apply Nat.eqb_eq in E; subst j|]; reflexivity.
Qed.

(** ** The two strategies side by side *)

Ltac corr_destruct H :=
  let b := fresh "b" in let i := fresh "i" in let m := fresh "m" in let l := fresh "l" in
  let t := fresh "t" in let ac := fresh "ac" in let o := fresh "o" in let h := fresh "h" in
  let b' := fresh "b" in let i' := fresh "i" in let m' := fresh "m" in let l' := fresh "l" in
  let t' := fresh "t" in let ac' := fresh "ac" in let o' := fresh "o" in let h' := fresh "h" in
  lazymatch type of H with
  | chan_corr ?c1 ?c2 =>
      destruct c1 as [b i m l t ac o h]; destruct c2 as [b' i' m' l' t' ac' o' h'];
      unfold chan_corr in H; cbn in H; destruct H as (<- & <- & <- & <- & <- & <-)
  end.

Lemma bypass_pin_corr t q c1 c2 :
  chan_corr c1 c2 ->
  fst (bypass_pin t q c1) = fst (bypass_pin t q c2) /\
  chan_corr (snd (bypass_pin t q c1)) (snd (bypass_pin t q c2)).
Proof.
  intros H. corr_destruct H. unfold bypass_pin. cbn [last_activity].
  destruct (negb (ms_queue_empty q)); [|destruct (_ =? U64_MAX); [|destruct (_ <? _)]];
    cbn; unfold chan_corr; cbn; repeat split.
Qed.

Lemma pin_active_corr f c1 c2 j :
  chan_corr (c1 j) (c2 j) -> pin_active f c1 j = pin_active f c2 j.
Proof.
  intros H. unfold pin_active. destruct (inputs f j); [|reflexivity].
  apply (bypass_pin_corr _ _ _ _ H).
Qed.

Lemma after_scan_corr f c1 c2 j :
  chan_corr (c1 j) (c2 j) -> chan_corr (after_scan f c1 j) (after_scan f c2 j).
Proof.
  intros H. unfold after_scan, pin_after. destruct (in_dec _ _ _); [|exact H].
  destruct (inputs f j); [|exact H]. apply (bypass_pin_corr _ _ _ _ H).
Qed.

Lemma dispatch_loop_ext idx single conf c1 c2 ai inq :
  (forall j, output_enabled (c1 j) = output_enabled (c2 j)) ->
  forall outs, dispatch_loop idx single conf c1 ai inq outs =
               dispatch_loop idx single conf c2 ai inq outs.
Proof.
  intros He. induction idx as [|i rest IH]; intros outs; cbn [dispatch_loop]; [reflexivity|].
  rewrite He. destruct (outs i); [|apply IH].
  destruct (_ && _); [destruct single; [reflexivity|apply IH]|apply IH].
Qed.

Lemma check_bypass_corr f c1 c2 bm single conf :
  (forall j, chan_corr (c1 j) (c2 j)) ->
  let '(b1, ch1, bm1, f1) := mixer_check_bypass f c1 bm single conf in
  let '(b2, ch2, bm2, f2) := mixer_check_bypass f c2 bm single conf in
  b1 = b2 /\ bm1 = bm2 /\ f1 = f2 /\ forall j, chan_corr (ch1 j) (ch2 j).
Proof.
  intros H. unfold mixer_check_bypass.
  pose proof (bypass_scan_spec f c1) as S1. pose proof (bypass_scan_spec f c2) as S2.
  destruct (bypass_scan f c1) as [[ch1 n1] a1].
  destruct (bypass_scan f c2) as [[ch2 n2] a2].
  destruct S1 as (S1c & S1n & S1a). destruct S2 as (S2c & S2n & S2a).
  assert (Hf : filter (pin_active f c1) (seq 0 MIXER_MAX_CHANNELS) =
               filter (pin_active f c2) (seq 0 MIXER_MAX_CHANNELS))
    by (apply filter_ext_in'; intros j _; apply pin_active_corr, H).
  assert (En : n1 = n2) by (rewrite S1n, S2n, Hf; reflexivity).
  assert (Ea : a1 = a2) by (rewrite S1a, S2a, Hf; reflexivity).
  clear S1n S2n S1a S2a Hf. subst n2 a2.
  assert (Hc : forall j, chan_corr (ch1 j) (ch2 j)).
  { intros j. rewrite S1c, S2c. apply (after_scan_corr f c1 c2 j (H j)). }
  destruct (n1 =? 1); [|destruct (n1 >? 1)]; (split; [reflexivity|split; [reflexivity|]]);
    (split; [|exact Hc]); try reflexivity.
  unfold mixer_dispatch_output. rewrite (dispatch_loop_ext _ _ _ ch1 ch2); [reflexivity|].
  intros j. apply (Hc j).
Qed.

Lemma flow_control_corr c1 c2 thr t :
  chan_corr c1 c2 ->
  fst (channel_flow_control c1 thr t) = fst (channel_flow_control c2 thr t) /\
  chan_corr (snd (channel_flow_control c1 thr t)) (snd (channel_flow_control c2 thr t)).
Proof.
  intros H. corr_destruct H. unfold channel_flow_control.
  cbn [last_flow_control bufferizer min_fullness].
  destruct (_ =? U64_MAX); [|destruct (u64 _ >=? 5000); [destruct (_ >=? thr)|]];
    cbn; unfold chan_corr; cbn; repeat split.
Qed.

Lemma drain_corr spt c1 c2 q sum :
  chan_corr c1 c2 ->
  chan_corr (Scalar.channel_drain spt c1 q) (fst (Avx2.channel_process_in c2 q sum spt)).
Proof.
  intros H. corr_destruct H. unfold Scalar.channel_drain, Avx2.channel_process_in.
  cbn [bufferizer set_had_input].
  destruct (ms_bufferizer_read _ _) as [[r data] b'].
  destruct (negb (r =? 0)); [destruct ac|]; cbn; unfold chan_corr; cbn; repeat split.
Qed.

Lemma sp_corr spt c1 c2 q sum :
  chan_corr c1 c2 -> Avx2.lanes spt = Z.to_nat spt ->
  scalar_sp spt c1 q sum = avx2_sp spt c2 q sum.
Proof.
  intros H Hl. corr_destruct H. unfold scalar_sp, avx2_sp, Scalar.channel_drain,
    Avx2.channel_process_in.
  cbn [bufferizer set_had_input].
  destruct (ms_bufferizer_read _ _) as [[r data] b'].
  destruct (negb (r =? 0)); [destruct ac|]; cbn; rewrite ?Hl; reflexivity.
Qed.

Lemma cp_corr spt thr t c1 c2 q :
  chan_corr c1 c2 -> chan_corr (scalar_cp spt thr t c1 q) (avx2_cp spt thr t c2 q).
Proof.
  intros H. unfold scalar_cp, avx2_cp. apply flow_control_corr, drain_corr, H.
Qed.

Lemma in_step_inputs cp1 sp1 cp2 sp2 idx :
  forall c1 s1 c2 s2 ins,
  snd (fold_left (in_step cp1 sp1) idx (c1, s1, ins)) =
  snd (fold_left (in_step cp2 sp2) idx (c2, s2, ins)).
Proof.
  induction idx as [|i rest IH]; intros c1 s1 c2 s2 ins; cbn [fold_left]; [reflexivity|].
  unfold in_step at 2 4. destruct (ins i); apply IH.
Qed.

Lemma dupb_id m : dupb m = m.
Proof. destruct m; reflexivity. Qed.

Lemma lanes_whole n : Z.rem n 8 = 0 -> Avx2.lanes n = Z.to_nat n.
Proof.
  intros H. unfold Avx2.lanes, Avx2.VLENGTH. f_equal.
  pose proof (Z.quot_rem' n 8). lia.
Qed.

Lemma make_output_copy sum nw :
  Z.rem nw 8 = 0 -> Avx2.make_output sum nw = Scalar.copy_to_out sum (Z.to_nat nw).
Proof.
  intros H. unfold Avx2.make_output, Scalar.copy_to_out. rewrite lanes_whole by exact H.
  apply map_ext. intros k. apply saturate_agrees.
Qed.

Lemma out_loops_agree idx n nw c1 c2 sum :
  (forall j, output_enabled (c1 j) = output_enabled (c2 j)) ->
  Scalar.copy_to_out sum n = Avx2.make_output sum nw ->
  forall cached g,
  Scalar.mix_out_loop idx n 0 c1 sum cached g = Avx2.out_loop_generic idx nw c2 sum cached g.
Proof.
  intros He Hp. induction idx as [|i rest IH]; intros cached g;
    cbn [Scalar.mix_out_loop Avx2.out_loop_generic]; [reflexivity|].
  destruct (outputs g i); [|apply IH].
  rewrite He. destruct (output_enabled (c2 i)); [|apply IH].
  rewrite andb_false_r. destruct cached as [c|].
  - rewrite dupb_id. apply IH.
  - cbn [allocb]. rewrite Hp. apply IH.
Qed.

Lemma quot_double x : Z.quot (2 * x) 2 = x.
Proof. replace (2 * x) with (x * 2) by ring. apply Z.quot_mul. lia. Qed.

(** Refinement between the two files: from corresponding states, on a
    tick with conference mode off or at most one active channel, the
    scalar and the vectorized [mixer_process] produce the same filter (the
    same frames on every pin) and corresponding states. *)
Theorem strategies_agree_without_conference (s : Scalar.MixerState) (a : Avx2.MixerState)
    (f : Filter) (Hc : mixer_corr s a)
    (Hm : Scalar.conf_mode s = 0 \/ active_count f (Scalar.channels s) <= 1) :
  snd (Scalar.mixer_process s f) = snd (Avx2.mixer_process a f) /\
  mixer_corr (fst (Scalar.mixer_process s f)) (fst (Avx2.mixer_process a f)).
Proof.
  pose proof Hc as (H1 & H2 & H3 & H4 & H5 & H6 & H7 & H8 & H9).
  unfold Scalar.mixer_process, Avx2.mixer_process. cbv zeta.
  rewrite <- H6, <- H8, <- H9.
  pose proof (check_bypass_corr f (Scalar.channels s) (Avx2.channels a) (Scalar.bypass_mode s)
                (Scalar.single_output s) (Scalar.conf_mode s) H5) as C.
  pose proof (check_bypass_shape f (Scalar.channels s) (Scalar.bypass_mode s)
                (Scalar.single_output s) (Scalar.conf_mode s)) as Sh.
  destruct (mixer_check_bypass f (Scalar.channels s) _ _ _) as [[[b1 ch1] bm1] f1].
  destruct (mixer_check_bypass f (Avx2.channels a) _ _ _) as [[[b2 ch2] bm2] f2].
  destruct C as (<- & <- & <- & Cc).
  destruct Sh as (_ & Sh2 & _).
  destruct b1; cbv beta iota.
  - split; [reflexivity|].
    cbn [fst Scalar.set_bypass_mode Scalar.set_channels Avx2.set_bypass_mode Avx2.set_channels].
    unfold mixer_corr.
    cbn [Scalar.nchannels Scalar.rate Scalar.samplespertick Scalar.channels Scalar.conf_mode
         Scalar.skip_threshold Scalar.bypass_mode Scalar.single_output
         Avx2.nchannels Avx2.rate Avx2.bytespertick Avx2.channels Avx2.conf_mode
         Avx2.skip_threshold Avx2.bypass_mode Avx2.single_output
         Scalar.set_bypass_mode Scalar.set_channels Avx2.set_bypass_mode Avx2.set_channels].
    exact (conj H1 (conj H2 (conj H3 (conj H4 (conj Cc (conj H6 (conj H7 (conj eq_refl H9)))))))).
  - destruct (Sh2 eq_refl) as (-> & -> & Hact).
    assert (Hconf : Scalar.conf_mode s = 0) by (destruct Hm as [Hm|Hm]; [exact Hm|lia]).
    assert (Hnw : Z.quot (Avx2.bytespertick a) 2 = Scalar.samplespertick s)
      by (rewrite H3; apply quot_double).
    rewrite Hnw.
    unfold Scalar.mix_in, Avx2.mix_in.
    cbn [Scalar.samplespertick Scalar.skip_threshold Scalar.set_bypass_mode Scalar.set_channels
         Avx2.bytespertick Avx2.skip_threshold Avx2.set_bypass_mode Avx2.set_channels].
    rewrite Hnw, <- H7.
    set (spt := Scalar.samplespertick s).
    set (thr := Scalar.skip_threshold s).
    rewrite (fold_left_ext_in (Scalar.mix_in_step spt thr (ticker_time f))
               (in_step (scalar_cp spt thr (ticker_time f)) (scalar_sp spt)))
      by (intros; apply scalar_mix_in_step_eq).
    rewrite (fold_left_ext_in (Avx2.mix_in_step spt thr (ticker_time f))
               (in_step (avx2_cp spt thr (ticker_time f)) (avx2_sp spt)))
      by (intros; apply avx2_mix_in_step_eq).
    pose proof (in_step_inputs (scalar_cp spt thr (ticker_time f)) (scalar_sp spt)
                  (avx2_cp spt thr (ticker_time f)) (avx2_sp spt) (seq 0 MIXER_MAX_CHANNELS)
                  ch1 (repeat 0 (Z.to_nat spt)) ch2 (repeat 0 (Z.to_nat spt)) (inputs f)) as Hins.
    pose proof (in_step_fold (scalar_cp spt thr (ticker_time f)) (scalar_sp spt) _
                  (seq_NoDup MIXER_MAX_CHANNELS 0) ch1 (repeat 0 (Z.to_nat spt)) (inputs f)) as F.
    pose proof (in_step_fold (avx2_cp spt thr (ticker_time f)) (avx2_sp spt) _
                  (seq_NoDup MIXER_MAX_CHANNELS 0) ch2 (repeat 0 (Z.to_nat spt)) (inputs f)) as G.
    destruct (fold_left (in_step (scalar_cp spt thr (ticker_time f)) (scalar_sp spt)) _ _)
      as [[chans2 sum2] ins2].
    destruct (fold_left (in_step (avx2_cp spt thr (ticker_time f)) (avx2_sp spt)) _ _)
      as [[chans2' sum2'] ins2'].
    cbn [snd] in Hins. subst ins2'.
    destruct F as (Fc & Fs & _). destruct G as (Gc & Gs & _).
    assert (Hsum : sum2 = sum2').
    { rewrite Fs, Gs. apply fold_left_ext_in. intros j acc _.
      destruct (inputs f j) as [q|]; [|reflexivity].
      apply sp_corr; [apply Cc|apply lanes_whole, H4]. }
    clear Fs Gs. subst sum2'.
    assert (Hch : forall j, chan_corr (chans2 j) (chans2' j)).
    { intros j. rewrite Fc, Gc. destruct (in_dec _ _ _); [|apply Cc].
      destruct (inputs f j); [apply cp_corr, Cc|apply Cc]. }
    rewrite Hconf, Z.eqb_refl. cbn [fst snd].
    split.
    + apply out_loops_agree.
      * intros j. apply (Hch j).
      * symmetry. apply make_output_copy, H4.
    + unfold mixer_corr.
      cbn [Scalar.nchannels Scalar.rate Scalar.samplespertick Scalar.channels Scalar.conf_mode
           Scalar.skip_threshold Scalar.bypass_mode Scalar.single_output
           Scalar.set_sum Scalar.set_channels Scalar.set_bypass_mode
           Avx2.nchannels Avx2.rate Avx2.bytespertick Avx2.channels Avx2.conf_mode
           Avx2.skip_threshold Avx2.bypass_mode Avx2.single_output
           Avx2.set_sum Avx2.set_channels Avx2.set_bypass_mode].
      exact (conj H1 (conj H2 (conj H3 (conj H4 (conj Hch (conj H6 (conj H7 (conj eq_refl H9)))))))).
Qed.

Lemma prepare_corr j1 j2 c1 c2 :
  chan_corr c1 c2 -> chan_corr (channel_prepare j1 c1) (channel_prepare j2 c2).
Proof. intros H. corr_destruct H. unfold channel_prepare, chan_corr. cbn. repeat split. Qed.

Lemma set_active_corr c1 c2 b :
  chan_corr c1 c2 -> chan_corr (set_active c1 b) (set_active c2 b).
Proof. intros H. corr_destruct H. unfold set_active, chan_corr. cbn. repeat split. Qed.

Lemma set_output_enabled_corr c1 c2 e :
  chan_corr c1 c2 -> chan_corr (set_output_enabled c1 e) (set_output_enabled c2 e).
Proof. intros H. corr_destruct H. unfold set_output_enabled, chan_corr. cbn. repeat split. Qed.

Lemma upd_corr (c1 c2 : nat -> Channel) p x1 x2 :
  (forall j, chan_corr (c1 j) (c2 j)) -> chan_corr x1 x2 ->
  forall j, chan_corr (upd c1 p x1 j) (upd c2 p x2 j).
Proof. intros H Hx j. unfold upd. destruct (j =? p)%nat; auto. Qed.

(** [mixer_preprocess] of the two files, from states agreeing on the
    channel count, a rate of 8000 or 16000, the conference mode and the
    channels, yields corresponding states whatever the fresh contribution
    buffers hold; the scalar tick size is [rate/1000 * nchannels *
    interval] samples. *)
Theorem preprocess_corresponds (junk1 junk2 : nat -> list Z) (s : Scalar.MixerState)
    (a : Avx2.MixerState) (f : Filter)
    (Hn : Scalar.nchannels s = Avx2.nchannels a) (Hr : Scalar.rate s = Avx2.rate a)
    (Hrate : Scalar.rate s = 8000 \/ Scalar.rate s = 16000)
    (Hconf : Scalar.conf_mode s = Avx2.conf_mode a)
    (Hch : forall j, chan_corr (Scalar.channels s j) (Avx2.channels a j)) :
  mixer_corr (Scalar.mixer_preprocess junk1 s f) (Avx2.mixer_preprocess junk2 a f) /\
  Scalar.samplespertick (Scalar.mixer_preprocess junk1 s f) =
    Scalar.rate s / 1000 * Scalar.nchannels s * ticker_interval f.
Proof.
  unfold mixer_corr, Scalar.mixer_preprocess, Avx2.mixer_preprocess.
  cbn [Scalar.nchannels Scalar.rate Scalar.samplespertick Scalar.channels Scalar.conf_mode
       Scalar.skip_threshold Scalar.bypass_mode Scalar.single_output
       Avx2.nchannels Avx2.rate Avx2.bytespertick Avx2.channels Avx2.conf_mode
       Avx2.skip_threshold Avx2.bypass_mode Avx2.single_output].
  rewrite <- Hn, <- Hr, <- Hconf.
  set (N := Scalar.nchannels s). set (I := ticker_interval f).
  assert (Hk : exists k, Scalar.rate s = k * 1000 /\ (k = 8 \/ k = 16))
    by (destruct Hrate as [R|R]; [exists 8|exists 16]; split; lia).
  destruct Hk as (k & Rk & Hk8). rewrite Rk.
  replace (N * (k * 1000) * I) with ((k * N * I) * 1000) by ring.
  replace (2 * N * (k * 1000) * I) with ((2 * (k * N * I)) * 1000) by ring.
  rewrite !Z.quot_mul by lia. rewrite Z.div_mul by lia.
  assert (Hch' : forall j, chan_corr (channel_prepare (junk1 j) (Scalar.channels s j))
                                     (channel_prepare (junk2 j) (Avx2.channels a j)))
    by (intros j; apply prepare_corr, Hch).
  split; [|reflexivity].
  split; [reflexivity|split; [reflexivity|split; [reflexivity|split; [|split; [exact Hch'|]]]]].
  - destruct Hk8 as [-> | ->];
      [replace (8 * N * I) with ((N * I) * 8) by ring
      |replace (16 * N * I) with ((2 * N * I) * 8) by ring];
      apply Z.rem_mul; lia.
  - split; [reflexivity|split; [lia|split; [reflexivity|]]].
    apply has_single_output_ext. intros j. apply (Hch' j).
Qed.

Ltac corr_fields :=
  cbn [fst snd Scalar.set_channels Avx2.set_channels Scalar.set_single_output Avx2.set_single_output
       Scalar.set_rate_field Avx2.set_rate_field Scalar.set_nchannels_field Avx2.set_nchannels_field
       Scalar.set_conf_mode_field Avx2.set_conf_mode_field
       Scalar.nchannels Scalar.rate Scalar.samplespertick Scalar.channels Scalar.conf_mode
       Scalar.skip_threshold Scalar.bypass_mode Scalar.single_output
       Avx2.nchannels Avx2.rate Avx2.bytespertick Avx2.channels Avx2.conf_mode
       Avx2.skip_threshold Avx2.bypass_mode Avx2.single_output].

(** The control methods of the two files keep corresponding states
    corresponding and give the same answers: [mixer_get_rate],
    [mixer_set_rate] at 8000 or 16000, [mixer_set_nchannels],
    [mixer_set_conference_mode], [mixer_set_active] and
    [mixer_enable_output]. *)
Theorem controls_preserve_correspondence (s : Scalar.MixerState) (a : Avx2.MixerState)
    (Hc : mixer_corr s a) :
  Scalar.mixer_get_rate s = Avx2.mixer_get_rate a /\
  (forall r, r = 8000 \/ r = 16000 ->
     fst (Scalar.mixer_set_rate r s) = fst (Avx2.mixer_set_rate r a) /\
     mixer_corr (snd (Scalar.mixer_set_rate r s)) (snd (Avx2.mixer_set_rate r a))) /\
  (forall n, mixer_corr (snd (Scalar.mixer_set_nchannels n s)) (snd (Avx2.mixer_set_nchannels n a))) /\
  (forall m, mixer_corr (snd (Scalar.mixer_set_conference_mode m s))
                        (snd (Avx2.mixer_set_conference_mode m a))) /\
  (forall pin b, fst (Scalar.mixer_set_active pin b s) = fst (Avx2.mixer_set_active pin b a) /\
     mixer_corr (snd (Scalar.mixer_set_active pin b s)) (snd (Avx2.mixer_set_active pin b a))) /\
  (forall f pin en,
     fst (Scalar.mixer_enable_output f pin en s) = fst (Avx2.mixer_enable_output f pin en a) /\
     mixer_corr (snd (Scalar.mixer_enable_output f pin en s))
                (snd (Avx2.mixer_enable_output f pin en a))).
Proof.
  pose proof Hc as (H1 & H2 & H3 & H4 & H5 & H6 & H7 & H8 & H9).
  split; [exact H2|split; [|split; [|split; [|split]]]].
  - intros r Hr. unfold Scalar.mixer_set_rate, Avx2.mixer_set_rate.
    assert (Es : (Z.rem r 8000 =? 0) = true) by (destruct Hr as [-> | ->]; reflexivity).
    assert (Ea : ((r =? 8000) || (r =? 16000)) = true) by (destruct Hr as [-> | ->]; reflexivity).
    rewrite Es, Ea. split; [reflexivity|]. unfold mixer_corr. corr_fields.
      exact (conj H1 (conj eq_refl (conj H3 (conj H4 (conj H5 (conj H6 (conj H7 (conj H8 H9)))))))).
  - intros n. unfold mixer_corr. corr_fields.
    exact (conj eq_refl (conj H2 (conj H3 (conj H4 (conj H5 (conj H6 (conj H7 (conj H8 H9)))))))).
  - intros m. unfold mixer_corr. corr_fields.
    exact (conj H1 (conj H2 (conj H3 (conj H4 (conj H5 (conj eq_refl (conj H7 (conj H8 H9)))))))).
  - intros pin b. unfold Scalar.mixer_set_active, Avx2.mixer_set_active.
    destruct (_ || _); [split; [reflexivity|exact Hc]|].
    split; [reflexivity|]. unfold mixer_corr. cbn [snd Scalar.set_channels Avx2.set_channels
      Scalar.nchannels Scalar.rate Scalar.samplespertick Scalar.channels Scalar.conf_mode
      Scalar.skip_threshold Scalar.bypass_mode Scalar.single_output
      Avx2.nchannels Avx2.rate Avx2.bytespertick Avx2.channels Avx2.conf_mode
      Avx2.skip_threshold Avx2.bypass_mode Avx2.single_output].
    refine (conj H1 (conj H2 (conj H3 (conj H4 (conj _ (conj H6 (conj H7 (conj H8 H9)))))))).
    apply upd_corr; [exact H5|apply set_active_corr, H5].
  - intros f pin en. unfold Scalar.mixer_enable_output, Avx2.mixer_enable_output.
    destruct (_ || _); [split; [reflexivity|exact Hc]|].
    split; [reflexivity|].
    assert (Hu : forall j, chan_corr
                   (upd (Scalar.channels s) (Z.to_nat pin)
                      (set_output_enabled (Scalar.channels s (Z.to_nat pin)) en) j)
                   (upd (Avx2.channels a) (Z.to_nat pin)
                      (set_output_enabled (Avx2.channels a (Z.to_nat pin)) en) j))
      by (apply upd_corr; [exact H5|apply set_output_enabled_corr, H5]).
    unfold mixer_corr. cbn [snd Scalar.set_channels Avx2.set_channels
      Scalar.set_single_output Avx2.set_single_output
      Scalar.nchannels Scalar.rate Scalar.samplespertick Scalar.channels Scalar.conf_mode
      Scalar.skip_threshold Scalar.bypass_mode Scalar.single_output
      Avx2.nchannels Avx2.rate Avx2.bytespertick Avx2.channels Avx2.conf_mode
      Avx2.skip_threshold Avx2.bypass_mode Avx2.single_output].
    refine (conj H1 (conj H2 (conj H3 (conj H4 (conj Hu (conj H6 (conj H7 (conj H8 _)))))))).
    apply has_single_output_ext. intros j. apply (Hu j).
Qed.

Ltac corr_concrete :=
  unfold mixer_corr, chan_corr; vm_compute;
  repeat match goal with
         | |- _ /\ _ => split
         | |- forall _, _ => intro
         | |- _ = _ => reflexivity
         end.

Lemma strategies_agree_without_conference_witness :
  snd (Scalar.mixer_process (scalar_plain [] three_talkers) three_talkers) =
  snd (Avx2.mixer_process (avx2_plain (repeat 7 80) three_talkers) three_talkers) /\
  mixer_corr (fst (Scalar.mixer_process (scalar_plain [] three_talkers) three_talkers))
             (fst (Avx2.mixer_process (avx2_plain (repeat 7 80) three_talkers) three_talkers)).
Proof.
  apply strategies_agree_without_conference; [corr_concrete | left; reflexivity].
Defined.

Lemma preprocess_corresponds_witness :
  mixer_corr (Scalar.mixer_preprocess (fun _ => []) (snd (Scalar.mixer_set_rate 8000 Scalar.mixer_init)) three_talkers)
             (Avx2.mixer_preprocess (fun _ => repeat 7 80) (snd (Avx2.mixer_set_rate 8000 Avx2.mixer_init)) three_talkers) /\
  Scalar.samplespertick (Scalar.mixer_preprocess (fun _ => []) (snd (Scalar.mixer_set_rate 8000 Scalar.mixer_init)) three_talkers) =
    Scalar.rate (snd (Scalar.mixer_set_rate 8000 Scalar.mixer_init)) / 1000 *
    Scalar.nchannels (snd (Scalar.mixer_set_rate 8000 Scalar.mixer_init)) * ticker_interval three_talkers.
Proof.
  apply preprocess_corresponds;
    [reflexivity | reflexivity | left; reflexivity | reflexivity | intro j; corr_concrete].
Defined.

Lemma controls_preserve_correspondence_witness :
  Scalar.mixer_get_rate Scalar.mixer_init = Avx2.mixer_get_rate Avx2.mixer_init /\
  (forall r, r = 8000 \/ r = 16000 ->
     fst (Scalar.mixer_set_rate r Scalar.mixer_init) = fst (Avx2.mixer_set_rate r Avx2.mixer_init) /\
     mixer_corr (snd (Scalar.mixer_set_rate r Scalar.mixer_init)) (snd (Avx2.mixer_set_rate r Avx2.mixer_init))) /\
  (forall n, mixer_corr (snd (Scalar.mixer_set_nchannels n Scalar.mixer_init))
                        (snd (Avx2.mixer_set_nchannels n Avx2.mixer_init))) /\
  (forall m, mixer_corr (snd (Scalar.mixer_set_conference_mode m Scalar.mixer_init))
                        (snd (Avx2.mixer_set_conference_mode m Avx2.mixer_init))) /\
  (forall pin b, fst (Scalar.mixer_set_active pin b Scalar.mixer_init) =
                 fst (Avx2.mixer_set_active pin b Avx2.mixer_init) /\
     mixer_corr (snd (Scalar.mixer_set_active pin b Scalar.mixer_init))
                (snd (Avx2.mixer_set_active pin b Avx2.mixer_init))) /\
  (forall f pin en,
     fst (Scalar.mixer_enable_output f pin en Scalar.mixer_init) =
     fst (Avx2.mixer_enable_output f pin en Avx2.mixer_init) /\
     mixer_corr (snd (Scalar.mixer_enable_output f pin en Scalar.mixer_init))
                (snd (Avx2.mixer_enable_output f pin en Avx2.mixer_init))).
Proof.
  apply controls_preserve_correspondence. corr_concrete.
Defined.
